(** * Cosmos visualizer: aggregation, ranking and graph building

    A shallow embedding of [DataManager] (search, rankResults,
    calculateRelevance, convertToGraphData) and of
    [CosmosVisualizer.performSearch], with the properties of the design
    document stated against them.

    Conventions of the embedding.
    - A JavaScript string is a [string]; the text handled here is ASCII, so
      [toLowerCase] maps [A-Z] to [a-z] and the class [\s] is
      tab, LF, VT, FF, CR and space.  Other code units are carried unchanged.
    - A JavaScript number is a rational [Q].  The scores below are built
      from 0, 0.5, 0.3/n, 1 with [+] and [Math.min] only.
    - An object property that may be absent is an [option]: [None] is
      [undefined].  [a || b] on such a property is [or_else_str] or
      [or_else_num].
    - A promise is represented by the way it settles ([Settled]); the
      event loop runs one continuation at a time.
    - The radius of the layout is kept on binary64 numbers. *)

From Stdlib Require Import Ascii String QArith Qminmax Qround Lqa Reals
  PrimFloat FloatOps FloatAxioms SpecFloat.
From stdpp Require Import gmap strings list sorting pretty.

Local Open Scope string_scope.
Local Open Scope list_scope.

(** ** JavaScript values *)

(** [x || d] for a string property: [undefined] and [''] are falsy. *)
Definition or_else_str (x : option string) (d : string) : string :=
  match x with
  | Some s => if decide (s = "") then d else s
  | None => d
  end.

(** [x || d] for a numeric property: [undefined] and [0] are falsy. *)
Definition or_else_num (x : option Q) (d : Q) : Q :=
  match x with
  | Some q => if Qeq_bool q 0 then d else q
  | None => d
  end.

(** [{ k: d, ...item }]: an own property [k] of [item] replaces the
    default, whatever its value. *)
Definition spread {A} (d : A) (own : option A) : A :=
  match own with
  | Some a => a
  | None => d
  end.

(** ** Strings *)

Definition is_upper (c : ascii) : bool :=
  (65 <=? nat_of_ascii c)%nat && (nat_of_ascii c <=? 90)%nat.

Definition lower_char (c : ascii) : ascii :=
  if is_upper c then ascii_of_nat (nat_of_ascii c + 32) else c.

(** [String.prototype.toLowerCase] *)
Fixpoint toLowerCase (s : string) : string :=
  match s with
  | EmptyString => EmptyString
  | String c s' => String (lower_char c) (toLowerCase s')
  end.

Fixpoint starts_with (p s : string) : bool :=
  match p, s with
  | EmptyString, _ => true
  | String a p', String b s' => if decide (a = b) then starts_with p' s' else false
  | String _ _, EmptyString => false
  end.

(** [text.includes(p)]: [p] occurs in [text] at some position. *)
Fixpoint includes (text p : string) : bool :=
  starts_with p text ||
  match text with
  | EmptyString => false
  | String _ text' => includes text' p
  end.

(** The class [\s], on ASCII. *)
Definition is_space (c : ascii) : bool :=
  let n := nat_of_ascii c in
  ((9 <=? n)%nat && (n <=? 13)%nat) || (n =? 32)%nat.

(** [s.split(/\s+/)]: the pieces between maximal runs of white space.  A
    run at either end leaves an empty piece there, and the empty string
    splits into one empty piece. *)
Fixpoint split_ws (s : string) : list string :=
  match s with
  | EmptyString => [EmptyString]
  | String c s' =>
      let rest := split_ws s' in
      if is_space c then
        match s' with
        | String c' _ => if is_space c' then rest else EmptyString :: rest
        | EmptyString => EmptyString :: rest
        end
      else
        match rest with
        | w :: ws => String c w :: ws
        | [] => [String c EmptyString]
        end
  end.

(** ** Records *)

Record Relationship := {
  rel_target : string;
  rel_strength : option Q
}.

(** A record as a provider or an imported file supplies it.  Every
    property the code reads is listed; each may be absent. *)
Record Item := {
  item_id : option string;
  item_name : option string;
  item_title : option string;
  item_description : option string;
  item_source : option string;
  item_type : option string;
  item_val : option Q;
  item_relevance : option Q;
  item_relationships : option (list Relationship)
}.

Definition empty_item : Item :=
  {| item_id := None; item_name := None; item_title := None;
     item_description := None; item_source := None; item_type := None;
     item_val := None; item_relevance := None; item_relationships := None |}.

(** [{ ...result, relevance: r }] *)
Definition with_relevance (result : Item) (r : Q) : Item :=
  {| item_id := item_id result; item_name := item_name result;
     item_title := item_title result;
     item_description := item_description result;
     item_source := item_source result; item_type := item_type result;
     item_val := item_val result; item_relevance := Some r;
     item_relationships := item_relationships result |}.

(** ** Ranking *)

Module DataManager.

(** The text a record is matched against:
    [`${result.name || ''} ${result.description || ''}`.toLowerCase()]. *)
Definition candidate_text (result : Item) : string :=
  toLowerCase (or_else_str (item_name result) "" +:+ " " +:+
               or_else_str (item_description result) "").

Definition word_share (words : list string) : Q :=
  (3 # 10) / inject_Z (Z.of_nat (length words)).

Definition calculateRelevance (query : string) (result : Item) : Q :=
  let queryLower := toLowerCase query in
  let text := candidate_text result in
  let score := 0%Q in
  let score := if includes text queryLower then (score + (1 # 2))%Q else score in
  let words := split_ws queryLower in
  let score :=
    fold_left
      (fun score word =>
         if includes text word then (score + word_share words)%Q else score)
      words score in
  Qmin score 1.

(** [Array.prototype.sort(cmp)] is a stable sort: [cmp a b <= 0] keeps [a]
    before [b].  Each element is inserted, from the right, before the
    first element it does not have to follow. *)
Fixpoint sort_insert {A} (cmp : A -> A -> Q) (x : A) (l : list A) : list A :=
  match l with
  | [] => [x]
  | y :: l' => if Qle_bool (cmp x y) 0 then x :: l else y :: sort_insert cmp x l'
  end.

Definition Array_sort {A} (cmp : A -> A -> Q) (l : list A) : list A :=
  foldr (sort_insert cmp) [] l.

(** [(a, b) => (b.relevance || 0) - (a.relevance || 0)] *)
Definition by_relevance (a b : Item) : Q :=
  or_else_num (item_relevance b) 0 - or_else_num (item_relevance a) 0.

Definition rankResults (results : list Item) (query : string) : list Item :=
  take 100
    (Array_sort by_relevance
       (map (fun result => with_relevance result (calculateRelevance query result))
            results)).

(** ** Graph building *)

Record GraphNode := {
  node_id : string;
  node_name : string;
  node_type : string;
  node_val : Q;
  node_item : Item   (* the remaining properties copied by [...item] *)
}.

(** [source] is [item.id], which is [undefined] for a record without id. *)
Record GraphLink := {
  link_source : option string;
  link_target : string;
  link_value : Q
}.

Record Graph := {
  nodes : list GraphNode;
  links : list GraphLink
}.

Definition make_node (index : nat) (item : Item) : GraphNode :=
  {| node_id :=
       spread (or_else_str (item_id item) ("node-" +:+ pretty index)) (item_id item);
     node_name :=
       spread (or_else_str (item_name item) (or_else_str (item_title item) "Untitled"))
              (item_name item);
     node_type := spread (or_else_str (item_source item) "unknown") (item_type item);
     node_val := spread (or_else_num (item_relevance item) 1) (item_val item);
     node_item := item |}.

(** First loop: [nodes.push(node); nodeMap.set(node.id, node)]. *)
Definition create_nodes (items : list Item)
  : list GraphNode * gmap string GraphNode :=
  fold_left
    (fun '(nodes, nodeMap) '(index, item) =>
       let node := make_node index item in
       (nodes ++ [node], <[node_id node := node]> nodeMap))
    (imap pair items) ([], ∅).

Definition make_link (item : Item) (rel : Relationship) : GraphLink :=
  {| link_source := item_id item;
     link_target := rel_target rel;
     link_value := or_else_num (rel_strength rel) 1 |}.

(** Second loop: one link per relationship whose target is a key of
    [nodeMap]. *)
Definition create_links (items : list Item) (nodeMap : gmap string GraphNode)
  : list GraphLink :=
  fold_left
    (fun links item =>
       match item_relationships item with
       | Some rels =>
           fold_left
             (fun links rel =>
                if decide (is_Some (nodeMap !! rel_target rel))
                then links ++ [make_link item rel]
                else links)
             rels links
       | None => links
       end)
    items [].

(** [typeGroups] is a [Map], iterated in the order its keys were first
    set: an association list. *)
Definition TypeGroups := list (string * list GraphNode).

Definition groups_has (k : string) (g : TypeGroups) : bool :=
  bool_decide (k ∈ g.*1).

(** [typeGroups.get(k).push(node)] *)
Fixpoint groups_push (k : string) (node : GraphNode) (g : TypeGroups) : TypeGroups :=
  match g with
  | [] => []
  | (k', group) :: g' =>
      if decide (k' = k) then (k', group ++ [node]) :: g'
      else (k', group) :: groups_push k node g'
  end.

Definition group_nodes (nodes : list GraphNode) : TypeGroups :=
  fold_left
    (fun typeGroups node =>
       let typeGroups :=
         if groups_has (node_type node) typeGroups then typeGroups
         else typeGroups ++ [(node_type node, [])] in
       groups_push (node_type node) node typeGroups)
    nodes [].

Definition similarity_link (a b : GraphNode) : GraphLink :=
  {| link_source := Some (node_id a);
     link_target := node_id b;
     link_value := 1 # 2 |}.

(** [for (let i = 0; i < group.length - 1; i++) links.push(...)] *)
Definition connect_group (group : list GraphNode) (links : list GraphLink)
  : list GraphLink :=
  fold_left
    (fun links i =>
       match group !! i, group !! (i + 1)%nat with
       | Some a, Some b => links ++ [similarity_link a b]
       | _, _ => links
       end)
    (seq 0 (length group - 1)) links.

Definition convertToGraphData (items : list Item) : Graph :=
  let '(nodes, nodeMap) := create_nodes items in
  let links := create_links items nodeMap in
  let links :=
    if (length links =? 0)%nat && (1 <? length nodes)%nat then
      fold_left (fun links '(_, group) => connect_group group links)
                (group_nodes nodes) links
    else links in
  {| nodes := nodes; links := links |}.

(** ** Searching *)

Inductive Error := TypeError | SearchError.

(** How a promise settles.  An exception thrown in the body of an [async]
    function rejects the promise the function returns. *)
Inductive Settled (A : Type) :=
  | Fulfilled (a : A)
  | Rejected (e : Error).
Arguments Fulfilled {A} a.
Arguments Rejected {A} e.

#[export] Instance Settled_ret : MRet Settled := fun _ a => Fulfilled a.
#[export] Instance Settled_bind : MBind Settled := fun _ _ k m =>
  match m with
  | Fulfilled a => k a
  | Rejected e => Rejected e
  end.

(** [promise.catch(err => v)] *)
Definition catch {A} (promise : Settled A) (v : A) : Settled A :=
  match promise with
  | Fulfilled a => Fulfilled a
  | Rejected _ => Fulfilled v
  end.

(** [Promise.all]: the values in order, or the first rejection. *)
Fixpoint Promise_all {A} (promises : list (Settled A)) : Settled (list A) :=
  match promises with
  | [] => Fulfilled []
  | promise :: promises' =>
      a ← promise; l ← Promise_all promises'; mret (a :: l)
  end.

(** What a slot of [sourceResults] holds: an array of records, or anything
    else ([undefined] included). *)
Inductive SearchValue :=
  | ArrayOf (items : list Item)
  | NotArray.

(** [async search(query)] always returns a promise. *)
Definition Provider := string -> Settled SearchValue.

(** The object literal built by the constructor. *)
Record t := {
  icosa : Provider;
  objaverse : Provider;
  github : Provider;
  web : Provider;
  local : Provider
}.

Definition searchProviders (this : t) : list (string * Provider) :=
  [("icosa", icosa this); ("objaverse", objaverse this);
   ("github", github this); ("web", web this); ("local", local this)].

Definition Object_keys (o : list (string * Provider)) : list string := o.*1.

(** The properties every object literal inherits from [Object.prototype]. *)
Definition Object_prototype_keys : list string :=
  ["constructor"; "hasOwnProperty"; "isPrototypeOf"; "propertyIsEnumerable";
   "toLocaleString"; "toString"; "valueOf"; "__proto__";
   "__defineGetter__"; "__defineSetter__"; "__lookupGetter__";
   "__lookupSetter__"].

(** The value of [this.searchProviders[source]]. *)
Inductive Property :=
  | Own (provider : Provider)
  | Inherited      (* a member of [Object.prototype]: not nullish, no [search] *)
  | Undefined.

Definition get_property (this : t) (source : string) : Property :=
  match (list_to_map (searchProviders this) : gmap string Provider) !! source with
  | Some provider => Own provider
  | None =>
      if bool_decide (source ∈ Object_prototype_keys) then Inherited else Undefined
  end.

(** [this.searchProviders[source]?.search(query).catch(err => [])].
    [?.] yields [undefined] on a nullish object only; on an inherited
    member, [.search] is [undefined] and calling it throws. *)
Definition search_source (this : t) (query source : string)
  : Settled (Settled SearchValue) :=
  match get_property this source with
  | Own provider => Fulfilled (catch (provider query) (ArrayOf []))
  | Undefined => Fulfilled (Fulfilled NotArray)
  | Inherited => Rejected TypeError
  end.

(** [sourceResults.forEach(items => { if (Array.isArray(items)) results.push(...items) })] *)
Definition merge_results (sourceResults : list SearchValue) : list Item :=
  fold_left
    (fun results items =>
       match items with
       | ArrayOf items => results ++ items
       | NotArray => results
       end)
    sourceResults [].

Definition search (this : t) (query : string) (sources : list string)
  : Settled (list Item) :=
  let activeSources :=
    if bool_decide ("all" ∈ sources) then Object_keys (searchProviders this)
    else sources in
  promises ← mapM (search_source this query) activeSources;
  sourceResults ← Promise_all promises;
  mret (rankResults (merge_results sourceResults) query).

End DataManager.

(** ** The application *)

Module CosmosVisualizer.
Import DataManager.

Record Call := { call_query : string; call_sources : list string }.

(** What the page shows, and the searches whose promise is still pending,
    keyed by the order in which they were issued. *)
Record State := {
  displayed : option Graph;      (* last argument of [updateVisualization] *)
  stats : option (nat * nat);    (* last argument of [updateStats] *)
  loading : bool;                (* the loading indicator *)
  pending : gmap nat Call;
  issued : nat
}.

Definition initial : State :=
  {| displayed := None; stats := None; loading := false;
     pending := ∅; issued := 0 |}.

(** [performSearch] up to its [await]: the loading indicator is shown and
    the search is started. *)
Definition performSearch (query : string) (sources : list string) (st : State)
  : State :=
  {| displayed := displayed st; stats := stats st; loading := true;
     pending := <[issued st := {| call_query := query; call_sources := sources |}]>
                  (pending st);
     issued := S (issued st) |}.

(** [performSearch] after its [await], when the search has settled with
    [outcome]: the graph is built and shown; a rejection is logged; the
    loading indicator is hidden in both cases. *)
Definition resume (outcome : Settled (list Item)) (k : nat) (st : State) : State :=
  match outcome with
  | Fulfilled results =>
      let graphData := convertToGraphData results in
      {| displayed := Some graphData;
         stats := Some (length (nodes graphData), length (links graphData));
         loading := false;
         pending := delete k (pending st); issued := issued st |}
  | Rejected _ =>
      {| displayed := displayed st; stats := stats st; loading := false;
         pending := delete k (pending st); issued := issued st |}
  end.

(** The event loop runs one of these at a time. *)
Inductive Event :=
  | Issue (query : string) (sources : list string)
  | Settle (k : nat).          (* the [k]-th search issued has settled *)

Definition step (dm : DataManager.t) (st : State) (ev : Event) : State :=
  match ev with
  | Issue query sources => performSearch query sources st
  | Settle k =>
      match pending st !! k with
      | Some call => resume (search dm (call_query call) (call_sources call)) k st
      | None => st
      end
  end.

Definition run (dm : DataManager.t) (evs : list Event) (st : State) : State :=
  fold_left (step dm) evs st.

End CosmosVisualizer.

(** ** Two providers of the source *)

(** [WebProvider.search] of the source: one record named after the query. *)
Definition WebProvider : DataManager.Provider := fun query =>
  let quote := String (ascii_of_nat 34) EmptyString in
  DataManager.Fulfilled (DataManager.ArrayOf
    [{| item_id := Some "web-1"; item_name :=
          Some ("Web results for " +:+ quote +:+ query +:+ quote);
        item_title := None;
        item_description := Some "Search the web for more results";
        item_source := Some "web"; item_type := None; item_val := None;
        item_relevance := None; item_relationships := None |}]).

(** [LocalProvider.search] of the source: nothing. *)
Definition LocalProvider : DataManager.Provider := fun _ => DataManager.Fulfilled (DataManager.ArrayOf []).

(** ** Layout *)

Module CosmosLayout.

(** [50 + Math.random() * 30] of [CosmosLayout.generate], on binary64
    numbers, [u] being the value [Math.random()] returned. *)
Definition radius (u : PrimFloat.float) : PrimFloat.float :=
  PrimFloat.add 50%float (PrimFloat.mul u 30%float).

(** [sizes[i] = 3 + (node.val || 1) * 2] *)
Definition particle_size (node : DataManager.GraphNode) : Q :=
  3 + or_else_num (Some (DataManager.node_val node)) 1 * 2.

(** [createConnections(graphData)], called by [generate] once every node
    has its [cosmosPosition].  The nodes are put in a [Map] by id, a later
    node replacing an earlier one of the same id, and a link gets a line
    when both of its ends are found there.  A node is known by its index
    in [graphData.nodes]; a line joins the positions of two nodes. *)
Definition createConnections (graphData : DataManager.Graph) : list (nat * nat) :=
  let nodeMap : gmap string nat :=
    fold_left (fun nodeMap '(i, node) => <[DataManager.node_id node := i]> nodeMap)
              (imap pair (DataManager.nodes graphData)) ∅ in
  fold_left
    (fun connections link =>
       match DataManager.link_source link ≫= (nodeMap !!.),
             nodeMap !! DataManager.link_target link with
       | Some sourceNode, Some targetNode =>
           connections ++ [(sourceNode, targetNode)]
       | _, _ => connections
       end)
    (DataManager.links graphData) [].

End CosmosLayout.

(** ** The search box *)

(** [String.prototype.trim], on ASCII: white space and line terminators
    are the characters of [\s]. *)
Fixpoint trim_start (s : string) : string :=
  match s with
  | EmptyString => EmptyString
  | String c s' => if is_space c then trim_start s' else s
  end.

Fixpoint trim_end (s : string) : string :=
  match s with
  | EmptyString => EmptyString
  | String c s' =>
      match trim_end s' with
      | EmptyString => if is_space c then EmptyString else String c EmptyString
      | t => String c t
      end
  end.

Definition trim (s : string) : string := trim_end (trim_start s).

Module UIController.

(** The handler [performSearch] of [setupSearchControls], run on Enter and
    on a click of the search button: [value] is the content of the input
    and [sources] the values of the checked source boxes. *)
Definition performSearch (value : string) (sources : list string)
           (st : CosmosVisualizer.State) : CosmosVisualizer.State :=
  let query := trim value in
  if decide (query = "") then st
  else CosmosVisualizer.performSearch query sources st.

End UIController.

(** ** The providers of the source *)

(** The records of the providers also carry [url], [modelUrl], [format]
    and [thumbnail]; the manager and the graph builder read none of them,
    and like [Item] the embedding leaves them out. *)

Module Providers.
Import DataManager.

(** The names of [sampleModels]. *)
Definition sampleModels : list string :=
  ["Astronaut"; "Damaged Helmet"; "Flight Helmet"; "Lantern"; "Water Bottle"].

(** [IcosaProvider.search]: the sample models whose name contains the
    query, all of them for the query "all", numbered from 0. *)
Definition IcosaProvider : Provider := fun query =>
  let filtered :=
    List.filter
      (fun name => includes (toLowerCase name) (toLowerCase query)
                   || bool_decide (toLowerCase query = "all"))
      sampleModels in
  Fulfilled (ArrayOf
    (imap (fun i name =>
             {| item_id := Some ("icosa-" +:+ pretty i);
                item_name := Some name; item_title := None;
                item_description := Some "3D model from Poly Gallery";
                item_source := Some "icosa"; item_type := None;
                item_val := None; item_relevance := None;
                item_relationships := None |})
          (take 5 filtered))).

(** [ObjaverseProvider.search] (the mock): three records named after the
    query. *)
Definition ObjaverseProvider : Provider := fun query =>
  Fulfilled (ArrayOf
    (map (fun i =>
            {| item_id := Some ("objaverse-" +:+ pretty i);
               item_name := Some (query +:+ " Object " +:+ pretty (i + 1)%nat);
               item_title := None;
               item_description := Some "3D object from Objaverse";
               item_source := Some "objaverse"; item_type := None;
               item_val := None; item_relevance := None;
               item_relationships := None |})
         (seq 0 3))).

(** An entry of the local [relationships] array of [GitHubProvider]. *)
Record Edge := {
  edge_source : string;
  edge_target : string;
  edge_strength : Q
}.

(** The last loop of [GitHubProvider.search]: each node receives the
    relationships it takes part in, seen from its side. *)
Definition relationships_of (relationships : list Edge) (id : option string)
  : list Relationship :=
  map (fun rel =>
         {| rel_target := if decide (Some (edge_source rel) = id)
                          then edge_target rel else edge_source rel;
            rel_strength := Some (edge_strength rel) |})
      (List.filter
         (fun rel => bool_decide (Some (edge_source rel) = id)
                     || bool_decide (Some (edge_target rel) = id))
         relationships).

Definition attach (relationships : list Edge) (node : Item) : Item :=
  {| item_id := item_id node; item_name := item_name node;
     item_title := item_title node; item_description := item_description node;
     item_source := item_source node; item_type := item_type node;
     item_val := item_val node; item_relevance := item_relevance node;
     item_relationships := Some (relationships_of relationships (item_id node)) |}.

Definition github_node (id name ty : string) (description : option string)
           (val : option Q) : Item :=
  {| item_id := Some id; item_name := Some name; item_title := None;
     item_description := description; item_source := Some "github";
     item_type := Some ty; item_val := val; item_relevance := None;
     item_relationships := None |}.

(** [GitHubProvider.search] (the mock): a repository node and an owner
    node per entry of [repos], the owner related to the repository. *)
Definition github_mock (repos : list (string * string)) : list Item :=
  let '(nodes, relationships) :=
    fold_left
      (fun '(nodes, relationships) '(i, (name, owner)) =>
         let repoNode := github_node ("github-repo-" +:+ pretty i) name
                                     "repository" None None in
         let ownerNode := github_node ("github-user-" +:+ pretty i) owner
                                      "user" None None in
         (nodes ++ [repoNode; ownerNode],
          relationships ++
            [{| edge_source := "github-user-" +:+ pretty i;
                edge_target := "github-repo-" +:+ pretty i;
                edge_strength := 1%Q |}]))
      (imap pair repos) ([], []) in
  map (attach relationships) nodes.

Definition GitHubProvider : Provider := fun _ =>
  Fulfilled (ArrayOf
    (github_mock [("awesome-3d", "user1"); ("3d-models", "user2");
                  ("webgl-demos", "user3")])).

(** The manager as its constructor builds it. *)
Definition manager : DataManager.t :=
  {| icosa := IcosaProvider; objaverse := ObjaverseProvider;
     github := GitHubProvider; web := WebProvider; local := LocalProvider |}.

End Providers.

(** ** The GitHub provider, second version *)

(** What [await fetch(url)] followed by [await response.json()] gives: the
    parsed body of an ok response, a response that is not ok, or an
    exception from either call. *)
Inductive Fetched (A : Type) :=
  | Body (a : A)
  | NotOk
  | Failed.
Arguments Body {A} a.
Arguments NotOk {A}.
Arguments Failed {A}.

(** [`${x}`] for an optional number or string: [undefined] prints as
    "undefined". *)
Definition show_nat (x : option nat) : string :=
  match x with
  | Some n => pretty n
  | None => "undefined"
  end.

Definition show_str (x : option string) : string :=
  match x with
  | Some s => s
  | None => "undefined"
  end.

(** [l.join(sep)] *)
Definition join (sep : string) (l : list string) : string :=
  match l with
  | [] => ""
  | x :: l' => fold_left (fun acc y => acc +:+ sep +:+ y) l' x
  end.

Module GitHub.
Import DataManager Providers.

Record Repo := {
  repo_name : string;
  repo_owner : string;
  repo_description : string;
  repo_stars : Z;
  repo_topics : list string
}.

Definition real3DRepos : list Repo :=
  [{| repo_name := "three.js"; repo_owner := "mrdoob";
      repo_description := "JavaScript 3D library"; repo_stars := 95000%Z;
      repo_topics := ["3d"; "webgl"; "javascript"] |};
   {| repo_name := "react-three-fiber"; repo_owner := "pmndrs";
      repo_description := "React renderer for three.js"; repo_stars := 24000%Z;
      repo_topics := ["react"; "threejs"; "3d"] |};
   {| repo_name := "aframe"; repo_owner := "aframevr";
      repo_description := "Web framework for building VR experiences";
      repo_stars := 15000%Z; repo_topics := ["vr"; "webvr"; "3d"] |};
   {| repo_name := "babylonjs"; repo_owner := "BabylonJS";
      repo_description := "Powerful 3D engine"; repo_stars := 21000%Z;
      repo_topics := ["3d"; "webgl"; "game-engine"] |};
   {| repo_name := "model-viewer"; repo_owner := "google";
      repo_description := "Display 3D models on the web"; repo_stars := 5000%Z;
      repo_topics := ["3d"; "gltf"; "web-components"] |}].

(** The filter over [real3DRepos]. *)
Definition repo_matches (query : string) (repo : Repo) : bool :=
  includes
    (toLowerCase (repo_name repo +:+ " " +:+ repo_owner repo +:+ " " +:+
                  repo_description repo +:+ " " +:+ join " " (repo_topics repo)))
    (toLowerCase query)
  || bool_decide (query = "").

(** [repo.topics.some(topic => filtered[i-1].topics.includes(topic))] *)
Definition shares_topic (repo : Repo) (previous : option Repo) : bool :=
  match previous with
  | Some prev =>
      existsb (fun topic => bool_decide (topic ∈ repo_topics prev)) (repo_topics repo)
  | None => false
  end.

(** One round of [filtered.forEach((repo, i) => ...)].  [log] stands for
    [Math.log] on the star counts. *)
Definition add_repo (log : Z -> Q) (filtered : list Repo)
           (acc : list Item * list Edge) (entry : nat * Repo)
  : list Item * list Edge :=
  let '(nodes, relationships) := acc in
  let '(i, repo) := entry in
  let repoId := "github-repo-" +:+ pretty i in
  let ownerId := "github-user-" +:+ pretty i in
  let repoNode := github_node repoId (repo_name repo) "repository"
                              (Some (repo_description repo))
                              (Some (log (repo_stars repo) / 2)%Q) in
  let ownerNode := github_node ownerId (repo_owner repo) "user" None (Some 2%Q) in
  let relationships :=
    relationships ++
      [{| edge_source := ownerId; edge_target := repoId; edge_strength := 1%Q |}] in
  let relationships :=
    if (0 <? i)%nat && shares_topic repo (filtered !! (i - 1)%nat) then
      relationships ++
        [{| edge_source := repoId;
            edge_target := "github-repo-" +:+ pretty (i - 1)%nat;
            edge_strength := 1 # 2 |}]
    else relationships in
  (nodes ++ [repoNode; ownerNode], relationships).

(** The nodes built from the repositories that passed the filter. *)
Definition repository_nodes (log : Z -> Q) (filtered : list Repo) : list Item :=
  let '(nodes, relationships) :=
    fold_left (add_repo log filtered) (imap pair filtered) ([], []) in
  map (attach relationships) nodes.

Record Actor := {
  actor_id : option nat;
  actor_login : option string
}.

Record RepoRef := {
  ref_id : option nat;
  ref_name : option string
}.

Record GHEvent := {
  event_actor : option Actor;
  event_repo : option RepoRef;
  event_type : option string
}.

Definition event_matches (query : string) (event : GHEvent) : bool :=
  includes
    (toLowerCase (or_else_str (event_repo event ≫= ref_name) "" +:+ " " +:+
                  or_else_str (event_actor event ≫= actor_login) ""))
    (toLowerCase query).

(** [nodes] is a [Map] keyed by id and read back in insertion order: the
    list of its values, a value being added only under a new id. *)
Definition set_new (node : Item) (nodes : list Item) : list Item :=
  if bool_decide (item_id node ∈ map item_id nodes) then nodes
  else nodes ++ [node].

(** One round of the [forEach] of [processGitHubEvents]; the third
    component of an edge, [type], is left out. *)
Definition add_event (acc : list Item * list (string * string)) (event : GHEvent)
  : list Item * list (string * string) :=
  let '(nodes, relationships) := acc in
  let actorId := "github-actor-" +:+ show_nat (event_actor event ≫= actor_id) in
  let nodes :=
    set_new {| item_id := Some actorId;
               item_name := event_actor event ≫= actor_login;
               item_title := None; item_description := None;
               item_source := Some "github"; item_type := Some "user";
               item_val := Some 1%Q; item_relevance := None;
               item_relationships := None |} nodes in
  let repoId := "github-repo-" +:+ show_nat (event_repo event ≫= ref_id) in
  let nodes :=
    set_new {| item_id := Some repoId;
               item_name := event_repo event ≫= ref_name;
               item_title := None; item_description := None;
               item_source := Some "github"; item_type := Some "repository";
               item_val := Some 2%Q; item_relevance := None;
               item_relationships := None |} nodes in
  (nodes, relationships ++ [(actorId, repoId)]).

(** [processGitHubEvents]: [relationships] is filled and then dropped,
    only the nodes are returned. *)
Definition processGitHubEvents (events : list GHEvent) (query : string)
  : list Item :=
  (fold_left add_event (take 50 (List.filter (event_matches query) events))
             ([], [])).1.

(** [GitHubProvider.search], for what fetching [/data/github-sample.json]
    gave. *)
Definition search (log : Z -> Q) (sample : Fetched (list GHEvent))
  : Provider := fun query =>
  match sample with
  | Body events => Fulfilled (ArrayOf (processGitHubEvents events query))
  | NotOk | Failed =>
      Fulfilled (ArrayOf
        (repository_nodes log (List.filter (repo_matches query) real3DRepos)))
  end.

End GitHub.

(** ** Stress test data *)

(** The successive values of [Math.random()]: a stream of numbers, and the
    position of the next one. *)
Definition Random := nat -> Q.

(** [Math.floor(u * n)] as an index. *)
Definition floor_index (u : Q) (n : nat) : nat :=
  Z.to_nat (Qfloor (u * inject_Z (Z.of_nat n))).

(** [s.padStart(6, '0')] *)
Fixpoint zeros (n : nat) : string :=
  match n with
  | O => ""
  | S n' => String "0" (zeros n')
  end.

Definition padStart6 (s : string) : string :=
  zeros (6 - String.length s) +:+ s.

Module StressTestData.
Import DataManager.

Definition prefixes : list string :=
  ["Model"; "Project"; "Dataset"; "Repository"; "Asset"; "Component";
   "System"; "Framework"; "Library"; "Tool"; "Sample"; "Demo";
   "Prototype"; "Algorithm"; "Structure"; "Pattern"; "Template"].

Definition suffixes : list string :=
  ["Alpha"; "Beta"; "Core"; "Pro"; "Lite"; "Advanced"; "Basic";
   "Engine"; "Toolkit"; "Suite"; "Platform"; "Service"; "API";
   "SDK"; "Framework"; "Library"; "Module"; "Plugin"].

Definition generateName (index : nat) : string :=
  let prefix := prefixes !! (index mod length prefixes)%nat in
  let suffix := suffixes !! ((index / length prefixes) mod length suffixes)%nat in
  let number := padStart6 (pretty index) in
  show_str prefix +:+ " " +:+ show_str suffix +:+ " " +:+ number.

Definition types : list (string * list string) :=
  [("github", ["repository"; "user"; "organization"]);
   ("objaverse", ["model"; "texture"; "material"]);
   ("icosa", ["artwork"; "artist"; "collection"]);
   ("local", ["file"; "folder"; "project"]);
   ("web", ["page"; "resource"; "api"])].

Definition templates : list (string * list string) :=
  [("github",
    ["Open source project for 3D development";
     "JavaScript library for WebGL applications";
     "Unity package for VR/AR experiences";
     "Python toolkit for 3D processing";
     "Cross-platform framework for immersive apps"]);
   ("objaverse",
    ["High-quality 3D model with PBR materials";
     "Procedurally generated geometric structure";
     "Scanned real-world object with textures";
     "Stylized character model for games";
     "Architectural element for virtual environments"]);
   ("icosa",
    ["Interactive 3D artwork by digital artist";
     "VR sculpture with dynamic lighting";
     "Immersive installation for galleries";
     "Collaborative virtual experience";
     "Generative art piece using algorithms"]);
   ("local",
    ["Local project file with development assets";
     "Cached data from external API source";
     "User-generated content and modifications";
     "Personal workspace configuration";
     "Custom tool or utility script"]);
   ("web",
    ["Web-based 3D visualization tool";
     "Online documentation and tutorials";
     "Community forum discussion thread";
     "Blog post about 3D development";
     "API endpoint for real-time data"])].

(** [table[source] || fallback] on one of the two object literals: an own
    key gives its array, a key inherited from [Object.prototype] gives a
    function (truthy, of length 0, without elements), any other key gives
    the fallback. *)
Inductive Looked :=
  | Array (l : list string)
  | Function.

Definition look (table : list (string * list string)) (source : string)
           (fallback : list string) : Looked :=
  match (list_to_map table : gmap string (list string)) !! source with
  | Some l => Array l
  | None =>
      if bool_decide (source ∈ Object_prototype_keys) then Function
      else Array fallback
  end.

(** [sourceTypes[Math.floor(Math.random() * sourceTypes.length)]] *)
Definition getTypeForSource (u : Q) (source : string) : option string :=
  match look types source ["item"] with
  | Array sourceTypes => sourceTypes !! floor_index u (length sourceTypes)
  | Function => None
  end.

(** [sourceTemplates[index % sourceTemplates.length]] *)
Definition generateDescription (index : nat) (source : string) : option string :=
  match look templates source ["Generic item description"] with
  | Array sourceTemplates =>
      match length sourceTemplates with
      | O => None
      | S _ => sourceTemplates !! (index mod length sourceTemplates)%nat
      end
  | Function => None
  end.

Definition sourceTypes : list string :=
  ["github"; "objaverse"; "icosa"; "local"; "web"].

Record Dataset := {
  dataset_nodes : list Item;
  dataset_links : list GraphLink
}.

(** The state of the loop: the two arrays and the number of random values
    drawn so far. *)
Record Loop := {
  loop_nodes : list Item;
  loop_links : list GraphLink;
  drawn : nat
}.

(** One round of the loop of [generateMassiveDataset].  The property
    [created] of a node is left out; the random value it consumes is
    drawn. *)
Definition round (random : Random) (st : Loop) (i : nat) : Loop :=
  let source := show_str (sourceTypes !! (i mod length sourceTypes)%nat) in
  let k := drawn st in
  let node :=
    {| item_id := Some ("stress-" +:+ pretty i);
       item_name := Some (generateName i);
       item_title := None;
       item_description := generateDescription i source;
       item_source := Some source;
       item_type := getTypeForSource (random k) source;
       item_val := Some (random (k + 1)%nat * 5 + (1 # 2))%Q;
       item_relevance := None; item_relationships := None |} in
  let nodes := loop_nodes st ++ [node] in
  let k := (k + 3)%nat in
  if (0 <? i)%nat then
    if Qle_bool (1 # 1000) (random k) then
      {| loop_nodes := nodes; loop_links := loop_links st; drawn := (k + 1)%nat |}
    else
      let targetIndex := floor_index (random (k + 1)%nat) i in
      {| loop_nodes := nodes;
         loop_links :=
           loop_links st ++
             [{| link_source := Some ("stress-" +:+ pretty i);
                 link_target := "stress-" +:+ pretty targetIndex;
                 link_value := random (k + 2)%nat |}];
         drawn := (k + 3)%nat |}
  else {| loop_nodes := nodes; loop_links := loop_links st; drawn := k |}.

Definition generateMassiveDataset (random : Random) (count : nat) : Dataset :=
  let st := fold_left (round random) (seq 0 count)
                      {| loop_nodes := []; loop_links := []; drawn := 0 |} in
  {| dataset_nodes := loop_nodes st; dataset_links := loop_links st |}.

(** An entry of the Objaverse index: [i] the URL, [n] the name, [s] the
    provider. *)
Record IndexEntry := {
  entry_i : option string;
  entry_n : option string;
  entry_s : option string
}.

Record Model := {
  model_id : string;
  model_name : string;
  model_source : string;
  model_type : string;
  model_description : string;
  modelUrl : option string;
  format : string;
  provider : option string;
  model_val : Q
}.

(** [s.endsWith(p)] *)
Fixpoint ends_with (p s : string) : bool :=
  if decide (s = p) then true
  else
    match s with
    | EmptyString => false
    | String _ s' => ends_with p s'
    end.

(** The node made of the [i]-th entry of the subset, [u] being the random
    value drawn for it. *)
Definition real_node (u : Q) (i : nat) (item : IndexEntry) : Model :=
  {| model_id := "objaverse-real-" +:+ pretty i;
     model_name := or_else_str (entry_n item) ("Model " +:+ pretty i);
     model_source := "objaverse";
     model_type := "model";
     model_description :=
       "Real 3D model from " +:+ or_else_str (entry_s item) "GitHub";
     modelUrl := entry_i item;
     format :=
       match entry_n item with
       | Some n => if ends_with ".glb" n then "glb" else "gltf"
       | None => "gltf"
       end;
     provider := entry_s item;
     model_val := (u * 3 + 1)%Q |}.

(** The number of rounds of
    [for (let i = 0; i < Math.min(nodes.length * 0.001, 1000); i++)]:
    the least integer that is not below the bound. *)
Definition link_rounds (n : nat) : nat :=
  Z.to_nat (Qceiling (Qmin (inject_Z (Z.of_nat n) * (1 # 1000)) 1000)).

(** One round of that loop, on the links and the number of random values
    drawn so far; the links are [None] once [nodes[source]] or
    [nodes[target]] was undefined and reading its [id] threw. *)
Definition link_round (random : Random) (nodes : list Model)
           (st : option (list GraphLink) * nat) (i : nat)
  : option (list GraphLink) * nat :=
  match st with
  | (Some links, k) =>
      let source := floor_index (random k) (length nodes) in
      let target := floor_index (random (k + 1)%nat) (length nodes) in
      if decide (source <> target) then
        match nodes !! source, nodes !! target with
        | Some a, Some b =>
            (Some (links ++
                     [{| link_source := Some (model_id a);
                         link_target := model_id b;
                         link_value := random (k + 2)%nat |}]),
             (k + 3)%nat)
        | _, _ => (None, (k + 2)%nat)
        end
      else (Some links, (k + 2)%nat)
  | (None, k) => (None, k)
  end.

(** What [loadObjaverseSubset] resolves with. *)
Inductive Subset :=
  | RealModels (nodes : list Model) (links : list GraphLink)
  | Generated (dataset : Dataset)
  | Undefined.

(** [loadObjaverseSubset(maxItems)], for what fetching the index gives
    ([Failed] also when the body is not an array) and the values
    [Math.random()] returns.  A response that is not ok leaves the [try]
    block without a [return]. *)
Definition loadObjaverseSubset (fetched : Fetched (list IndexEntry))
           (random : Random) (maxItems : nat) : Subset :=
  match fetched with
  | Body fullIndex =>
      let subset := take maxItems fullIndex in
      let nodes := imap (fun i item => real_node (random i) i item) subset in
      match fold_left (link_round random nodes)
                      (seq 0 (link_rounds (length nodes)))
                      (Some [], length nodes) with
      | (Some links, _) => RealModels nodes links
      | (None, k) =>
          (* the exception is caught *)
          Generated (generateMassiveDataset (fun j => random (k + j)%nat) maxItems)
      end
  | NotOk => Undefined
  | Failed => Generated (generateMassiveDataset random maxItems)
  end.

End StressTestData.

(** ** The application around the search *)







Module Visualizer.
Import DataManager CosmosVisualizer.

(** The page with its graph ([displayed] is the graph the visualization
    shows, none once it is cleared), the graph kept for redrawing, and the
    viewer mode. *)
Record App := {
  page : State;
  lastGraphData : option Graph;
  currentMode : string
}.

Definition show (graph : option Graph) (st : State) : State :=
  {| displayed := graph; stats := stats st; loading := loading st;
     pending := pending st; issued := issued st |}.

(** [clearVisualization]: the page shows no graph. *)
Definition clearVisualization (app : App) : App :=
  {| page := show None (page app); lastGraphData := lastGraphData app;
     currentMode := currentMode app |}.

(** [updateVisualization(graphData)]: the visualization is cleared and the
    graph is built in the selected layout. *)
Definition updateVisualization (graphData : Graph) (app : App) : App :=
  let app := clearVisualization app in
  {| page := show (Some graphData) (page app);
     lastGraphData := lastGraphData app; currentMode := currentMode app |}.

(** [switchMode(mode)] *)
Definition switchMode (mode : string) (app : App) : App :=
  let app := {| page := page app; lastGraphData := lastGraphData app;
                currentMode := mode |} in
  if decide (mode = "graph") then
    let app := clearVisualization app in
    match lastGraphData app with
    | Some graphData => updateVisualization graphData app
    | None => app
    end
  else if decide (mode = "metavido") then clearVisualization app
  else app.

(** The [change] handler of the layout radios, for the radio that became
    checked. *)
Definition layoutChanged (app : App) : App :=
  match lastGraphData app with
  | Some graphData => updateVisualization graphData app
  | None => app
  end.

(** [loadInitialData()], once fetching [/data/sample.json] has given
    [fetched].  The records of the file are converted, kept and shown.
    When the response is not ok, and when anything throws (a body that is
    no array of records makes [convertToGraphData] throw before anything
    is assigned), [showWelcome] puts a cube in the scene and the graph is
    not touched. *)
Definition loadInitialData (fetched : Fetched (list Item)) (app : App) : App :=
  match fetched with
  | Body data =>
      let graphData := convertToGraphData data in
      updateVisualization graphData
        {| page := page app; lastGraphData := Some graphData;
           currentMode := currentMode app |}
  | NotOk => app
  | Failed => app
  end.


      (* [showLoading()], [modelLoader.load(url, extension)], the model
         displayed or the failure logged, and [hideLoading()] at last *)


Inductive AppEvent :=
  | Search (ev : Event)
  | InitialData (fetched : Fetched (list Item))
  | LayoutChanged
  | ModeSwitched (mode : string).

Definition step (dm : DataManager.t) (app : App) (ev : AppEvent) : App :=
  match ev with
  | Search ev =>
      {| page := CosmosVisualizer.step dm (page app) ev;
         lastGraphData := lastGraphData app; currentMode := currentMode app |}
  | InitialData fetched => loadInitialData fetched app
  | LayoutChanged => layoutChanged app
  | ModeSwitched mode => switchMode mode app
  end.

Definition run (dm : DataManager.t) (evs : list AppEvent) (app : App) : App :=
  fold_left (step dm) evs app.

Definition start : App :=
  {| page := initial; lastGraphData := None; currentMode := "graph" |}.

End Visualizer.

(** * Vocabulary of the properties *)

Import DataManager.
Import CosmosVisualizer.

(** A record with the given name and description and nothing else. *)
Definition record (name description : option string) : Item :=
  {| item_id := None; item_name := name; item_title := None;
     item_description := description; item_source := None; item_type := None;
     item_val := None; item_relevance := None; item_relationships := None |}.

(** The sum of a sequence of numbers. *)
Definition Qsum (l : list Q) : Q := foldr Qplus 0%Q l.

(** The score as the design document words it, for a candidate [text]:
    0.5 when the text contains the whole query, plus [0.3 / wordCount] for
    each word of the query found in the text, capped at 1. *)
Definition relevance_formula (text query : string) : Q :=
  let q := toLowerCase query in
  let words := split_ws q in
  Qmin 1
    ((if includes text q then 1 # 2 else 0) +
     Qsum (map (fun w => if includes text w then word_share words else 0%Q) words)).

(** The candidate text read as the bare concatenation of name and
    description. *)
Definition concatenated_text (result : Item) : string :=
  toLowerCase (or_else_str (item_name result) "" +:+
               or_else_str (item_description result) "").

(** The words of a query: its maximal runs of characters other than white
    space. *)
Definition words_of (q : string) : list string :=
  filter (fun w => w <> "") (split_ws q).

(** The score read off the words of the design document: the text is the
    concatenation of name and description, and each word of the query
    found in it adds 0.3 over the number of words. *)
Definition claimed_relevance (query : string) (result : Item) : Q :=
  let q := toLowerCase query in
  let text := concatenated_text result in
  let words := words_of q in
  Qmin 1
    ((if includes text q then 1 # 2 else 0) +
     Qsum (map (fun w => if includes text w then word_share words else 0%Q) words)).

(** The sort key read by the comparator: [r.relevance || 0]. *)
Definition relevance_key (r : Item) : Q := or_else_num (item_relevance r) 0.

(** Every entry has at least the relevance of those after it. *)
Definition non_increasing (l : list Item) : Prop :=
  StronglySorted (fun a b => relevance_key b <= relevance_key a)%Q l.

(** The entries of [l] whose relevance is [v], in the order of [l]. *)
Definition with_key (v : Q) (l : list Item) : list Item :=
  List.filter (fun r => Qeq_bool (relevance_key r) v) l.

(** The input of the sort: every record with its score. *)
Definition annotate (query : string) (results : list Item) : list Item :=
  map (fun result => with_relevance result (calculateRelevance query result)) results.

(** [nodeMap] after the first loop, as a function of the nodes pushed. *)
Definition index_nodes (nodes : list GraphNode) (m : gmap string GraphNode)
  : gmap string GraphNode :=
  fold_left (fun m node => <[node_id node := node]> m) nodes m.

(** The links one record contributes in the second loop. *)
Definition links_of (nodeMap : gmap string GraphNode) (item : Item) : list GraphLink :=
  match item_relationships item with
  | Some rels =>
      map (make_link item)
          (filter (fun rel => is_Some (nodeMap !! rel_target rel)) rels)
  | None => []
  end.

(** The links with which the second loop leaves [links]. *)
Definition explicit_links (items : list Item) : list GraphLink :=
  create_links items (create_nodes items).2.

(** Consecutive members of a group, joined pairwise. *)
Fixpoint chain (group : list GraphNode) : list GraphLink :=
  match group with
  | a :: (b :: _) as rest => similarity_link a b :: chain rest
  | _ => []
  end.

(** The distinct elements of a list, in the order of their first
    occurrence. *)
Definition first_occurrences (l : list string) : list string :=
  reverse (remove_dups (reverse l)).

(** Nodes grouped by type: one group per type, in the order the types
    first occur, each group in node order. *)
Definition groups_by_type (nodes : list GraphNode) : TypeGroups :=
  map (fun ty => (ty, filter (fun node => node_type node = ty) nodes))
      (first_occurrences (map node_type nodes)).

(** A record with the given id, name, source and relationships. *)
Definition entry (id name source : option string)
           (relationships : option (list Relationship)) : Item :=
  {| item_id := id; item_name := name; item_title := None;
     item_description := None; item_source := source; item_type := None;
     item_val := None; item_relevance := None;
     item_relationships := relationships |}.


(** The sources a call searches. *)
Definition active_sources (this : DataManager.t) (sources : list string) : list string :=
  if bool_decide ("all" ∈ sources) then Object_keys (searchProviders this)
  else sources.

(** What the slot of one source holds once every promise has settled. *)
Definition settled_value (this : DataManager.t) (query source : string) : SearchValue :=
  match get_property this source with
  | Own provider =>
      match provider query with
      | Fulfilled v => v
      | Rejected _ => ArrayOf []
      end
  | _ => NotArray
  end.

(** The records one source contributes to the merged sequence. *)
Definition contribution (this : DataManager.t) (query source : string) : list Item :=
  match settled_value this query source with
  | ArrayOf items => items
  | NotArray => []
  end.

(** A manager all of whose providers reject. *)
Definition failing : DataManager.t :=
  let reject : Provider := fun _ => Rejected SearchError in
  {| icosa := reject; objaverse := reject; github := reject;
     web := reject; local := reject |}.

(** A manager with the web and local providers of the source, the other
    three finding nothing. *)
Definition demo : DataManager.t :=
  {| icosa := LocalProvider; objaverse := LocalProvider; github := LocalProvider;
     web := WebProvider; local := LocalProvider |}.

(** The graph a search shows when it settles, if it resolves. *)
Definition graph_of (dm : DataManager.t) (query : string) (sources : list string)
  : option Graph :=
  match search dm query sources with
  | Fulfilled results => Some (convertToGraphData results)
  | Rejected _ => None
  end.

(** The string begins, or ends, with a character of [\s]. *)
Definition starts_space (s : string) : bool :=
  match s with
  | EmptyString => false
  | String c _ => is_space c
  end.

Fixpoint ends_space (s : string) : bool :=
  match s with
  | EmptyString => false
  | String c s' =>
      match s' with
      | EmptyString => is_space c
      | String _ _ => ends_space s'
      end
  end.

(** The records a provider resolves with, none when it rejects or
    resolves with something else. *)
Definition results_of (provider : Provider) (query : string) : list Item :=
  match provider query with
  | Fulfilled (ArrayOf items) => items
  | _ => []
  end.

Import Providers.

(** The ids of the nodes of [n] repositories, in the order they are
    pushed. *)
Definition repository_ids (n : nat) : list (option string) :=
  flat_map (fun i => [Some ("github-repo-" +:+ pretty i);
                      Some ("github-user-" +:+ pretty i)])
           (seq 0 n).

(** The relationships a record carries. *)
Definition relationships_in (node : Item) : list Relationship :=
  default [] (item_relationships node).

(** The relationship between the owner and the repository of entry [i]. *)
Definition owner_edge (i : nat) : Edge :=
  {| edge_source := "github-user-" +:+ pretty i;
     edge_target := "github-repo-" +:+ pretty i;
     edge_strength := 1 |}.

(** A node as [processGitHubEvents] builds it: a user or a repository,
    without relationships. *)
Definition plain_github_node (node : Item) : Prop :=
  item_relationships node = None /\
  (item_type node = Some "user" \/ item_type node = Some "repository").

Import StressTestData.

(** Every value of the stream lies in [0,1), as those of [Math.random()]
    do. *)
Definition in_unit (random : Random) : Prop :=
  forall k, (0 <= random k < 1)%Q.

(** A link from node [i] to an earlier node, with a strength in [0,1). *)
Definition backward_link (count : nat) (l : GraphLink) : Prop :=
  exists i t, (t < i < count)%nat /\
              link_source l = Some ("stress-" +:+ pretty i) /\
              link_target l = "stress-" +:+ pretty t /\
              (0 <= link_value l < 1)%Q.

(** The description and the types that go with each source in the stress
    data. *)
Definition stress_kinds : list (string * string * list string) :=
  [("github", "Open source project for 3D development",
    ["repository"; "user"; "organization"]);
   ("objaverse", "Procedurally generated geometric structure",
    ["model"; "texture"; "material"]);
   ("icosa", "Immersive installation for galleries",
    ["artwork"; "artist"; "collection"]);
   ("local", "Personal workspace configuration",
    ["file"; "folder"; "project"]);
   ("web", "API endpoint for real-time data",
    ["page"; "resource"; "api"])].

Definition stress_node (node : Item) : Prop :=
  exists s d ts,
    (s, d, ts) ∈ stress_kinds /\
    item_source node = Some s /\ item_description node = Some d /\
    (exists ty, ty ∈ ts /\ item_type node = Some ty).

(** A stream that alternates between 0 and 1/2. *)
Definition alternating : Random :=
  fun k => if Nat.even k then 0%Q else (1 # 2)%Q.

(** An event that reads no file. *)
Definition reads_no_file (ev : Visualizer.AppEvent) : bool :=
  match ev with
  | Visualizer.InitialData _ => false
  | _ => true
  end.


(** [i] is the index of the last node with id [id]. *)
Definition latest (ns : list GraphNode) (id : string) (i : nat) : Prop :=
  (exists node, ns !! i = Some node /\ node_id node = id) /\
  (forall j node, ns !! j = Some node -> node_id node = id -> (j <= i)%nat).

(** The line [c] is the one of link [l]: it joins the last node with the
    id of the link's source and the last node with the id of its target. *)
Definition line_of (ns : list GraphNode) (l : GraphLink) (c : nat * nat) : Prop :=
  (exists id, link_source l = Some id /\ latest ns id c.1) /\
  latest ns (link_target l) c.2.

(** The [Map] of [createConnections]: the index under which each id is
    found. *)
Definition node_indices (ns : list GraphNode) : gmap string nat :=
  fold_left (fun nodeMap '(i, node) => <[node_id node := i]> nodeMap)
            (imap pair ns) ∅.

(** The line of a link, when both of its ends are found. *)
Definition line (nodeMap : gmap string nat) (l : GraphLink) : option (nat * nat) :=
  match link_source l ≫= (nodeMap !!.), nodeMap !! link_target l with
  | Some sourceNode, Some targetNode => Some (sourceNode, targetNode)
  | _, _ => None
  end.

(** A link between two different nodes of [n], with a strength in
    [0,1). *)
Definition proper_link (n : nat) (l : GraphLink) : Prop :=
  exists s t, (s < n)%nat /\ (t < n)%nat /\ s <> t /\
              link_source l = Some ("objaverse-real-" +:+ pretty s) /\
              link_target l = "objaverse-real-" +:+ pretty t /\
              (0 <= link_value l < 1)%Q.

(** * Properties *)

(** ** Strings *)

Section StringFacts.

Lemma append_cons (a : ascii) (p q : string) :
  String a p +:+ q = String a (p +:+ q).
Proof. reflexivity. Qed.


Lemma starts_with_spec (p s : string) :
  starts_with p s = true <-> exists post, s = p +:+ post.
Proof.
  revert s. induction p as [|a p IH]; intros s; simpl.
  - split; [intros _; by exists s | done].
  - setoid_rewrite append_cons. destruct s as [|b s].
    + split; [done | by intros [post ?]].
    + destruct (decide (a = b)) as [->|Hne].
      * rewrite IH. split; intros [post Hpost]; exists post; congruence.
      * split; [done | intros [post Hpost]; congruence].
Qed.

(** [includes] holds exactly when the pattern occurs between a prefix
    and a suffix of the text. *)
Lemma includes_spec (text p : string) :
  includes text p = true <-> exists pre post, text = pre +:+ p +:+ post.
Proof.
  induction text as [|c text IH]; simpl.
  - rewrite orb_false_r, starts_with_spec. split.
    + intros [post ->]. by exists "", post.
    + intros ([|c pre] & post & Heq); [by exists post | done].
  - rewrite orb_true_iff, starts_with_spec, IH. split.
    + intros [[post ->]|(pre & post & ->)].
      * by exists "", post.
      * by exists (String c pre), post.
    + intros ([|c' pre] & post & Heq).
      * left. by exists post.
      * right. exists pre, post. rewrite append_cons in Heq. congruence.
Qed.

Lemma includes_empty (text : string) : includes text "" = true.
Proof. by destruct text. Qed.

End StringFacts.

(** The behaviour of [split(/\s+/)] at the ends of the query, as in
    JavaScript. *)
Example split_ws_pieces :
  split_ws "damaged helmet" = ["damaged"; "helmet"] /\
  split_ws "a  b" = ["a"; "b"] /\
  split_ws " a" = [""; "a"] /\
  split_ws "a " = ["a"; ""] /\
  split_ws " " = [""; ""] /\
  split_ws "" = [""].
Proof. repeat split. Qed.

Example toLowerCase_ascii :
  toLowerCase "Damaged Helmet 3D" = "damaged helmet 3d".
Proof. reflexivity. Qed.

Lemma split_ws_nonempty (s : string) : split_ws s <> [].
Proof.
  induction s as [|c s IH]; simpl; [done|].
  destruct (is_space c).
  - destruct s as [|c' s']; [done|]. by destruct (is_space c').
  - by destruct (split_ws s).
Qed.

(** ** Relevance *)

Lemma fold_score (text : string) (d : Q) (words : list string) (s0 : Q) :
  (fold_left (fun score w => if includes text w then score + d else score) words s0
   == s0 + Qsum (map (fun w => if includes text w then d else 0) words))%Q.
Proof.
  revert s0. induction words as [|w words IH]; intros s0; simpl.
  - ring.
  - rewrite IH. destruct (includes text w); ring.
Qed.

Lemma word_share_nonneg (words : list string) : (0 <= word_share words)%Q.
Proof.
  unfold word_share. destruct words as [|w ws].
  - simpl. unfold Qdiv, Qinv. simpl. lra.
  - apply Qle_shift_div_l.
    + unfold Qlt. simpl. lia.
    + lra.
Qed.

Lemma Qsum_nonneg (l : list Q) : Forall (fun x => 0 <= x)%Q l -> (0 <= Qsum l)%Q.
Proof.
  induction 1 as [|x l Hx _ IH]; simpl; [lra|].
  change (0 <= x + Qsum l)%Q. lra.
Qed.

Lemma word_sum_nonneg (text : string) (all words : list string) :
  (0 <= Qsum (map (fun w => if includes text w then word_share all else 0) words))%Q.
Proof.
  induction words as [|w words IH]; simpl; [lra|].
  pose proof (word_share_nonneg all).
  match goal with |- (0 <= ?a + ?b)%Q => change (0 <= a + b)%Q end.
  destruct (includes text w); lra.
Qed.

Lemma calculateRelevance_formula (query : string) (result : Item) :
  (calculateRelevance query result
   == relevance_formula (candidate_text result) query)%Q.
Proof.
  unfold calculateRelevance, relevance_formula.
  rewrite Q.min_comm. apply Q.min_compat; [reflexivity|].
  rewrite fold_score.
  destruct (includes _ (toLowerCase query)); ring.
Qed.

Lemma calculateRelevance_bounds (query : string) (result : Item) :
  (0 <= calculateRelevance query result <= 1)%Q.
Proof.
  split.
  - rewrite calculateRelevance_formula. unfold relevance_formula.
    apply Q.min_glb; [lra|].
    pose proof (word_sum_nonneg (candidate_text result)
                  (split_ws (toLowerCase query)) (split_ws (toLowerCase query))).
    destruct (includes _ (toLowerCase query)); lra.
  - apply Q.le_min_r.
Qed.

(** C1, as stated, fails, in two ways.  The code puts a space between
    name and description: the record "Damaged Helmet" / "3D model from
    Poly Gallery" scores 0.8 for the query "helmet 3d", which straddles
    that space, and 0.3 over the bare concatenation.  And [split(/\s+/)]
    leaves an empty piece for leading white space, which every text
    contains and which counts as a word: the record "bar" scores 0.15 for
    the query " foo", none of whose words it contains. *)
Lemma relevance_claimed_counterexample :
  let helmet := record (Some "Damaged Helmet") (Some "3D model from Poly Gallery") in
  let bar := record (Some "bar") None in
  (calculateRelevance "helmet 3d" helmet == 8 # 10)%Q /\
  (claimed_relevance "helmet 3d" helmet == 3 # 10)%Q /\
  (calculateRelevance " foo" bar == 15 # 100)%Q /\
  (claimed_relevance " foo" bar == 0)%Q /\
  ~ (forall query result,
       calculateRelevance query result == claimed_relevance query result)%Q.
Proof.
  repeat split; try reflexivity.
  intros H.
  specialize (H "helmet 3d"
                (record (Some "Damaged Helmet") (Some "3D model from Poly Gallery"))).
  vm_compute in H. discriminate H.
Qed.

(** C1, amended: the relevance is min(1, s) over the text
    lower(name + " " + description), a missing name or description being
    empty; s is 0.5 when that text contains the lowercased query, plus
    0.3 / wordCount for each piece of [split(/\s+/)] of the lowercased
    query found in it (empty pieces included).  A record whose text
    contains the query scores at least 0.5, as "Damaged Helmet" does for
    "helmet". *)
Theorem relevance_is_formula :
  (forall query result,
     calculateRelevance query result
     == relevance_formula (candidate_text result) query)%Q /\
  (forall query result,
     includes (candidate_text result) (toLowerCase query) = true ->
     1 # 2 <= calculateRelevance query result)%Q /\
  (1 # 2 <= calculateRelevance "helmet" (record (Some "Damaged Helmet") None))%Q.
Proof.
  split; [exact calculateRelevance_formula|]. split.
  - intros query result Hin. unfold calculateRelevance.
    rewrite Hin. apply Q.min_glb; [|lra].
    rewrite fold_score.
    pose proof (word_sum_nonneg (candidate_text result)
                  (split_ws (toLowerCase query)) (split_ws (toLowerCase query))).
    lra.
  - vm_compute. discriminate.
Qed.

Lemma relevance_is_formula_witness :
  includes (candidate_text (record (Some "Damaged Helmet") None))
           (toLowerCase "helmet") = true /\
  (1 # 2 <= calculateRelevance "helmet" (record (Some "Damaged Helmet") None))%Q.
Proof.
  split; [reflexivity|].
  apply (proj1 (proj2 relevance_is_formula)). reflexivity.
Defined.

(** ** Layout radius *)

(** For the two largest doubles below 1 (1 - 2^-53 and 1 - 2^-52) the
    sum rounds to 80. *)
Lemma radius_rounds_to_80 :
  PrimFloat.ltb 0x1.fffffffffffffp-1%float 1%float = true /\
  PrimFloat.eqb (CosmosLayout.radius 0x1.fffffffffffffp-1%float) 80%float = true /\
  PrimFloat.eqb (CosmosLayout.radius 0x1.ffffffffffffep-1%float) 80%float = true.
Proof. repeat split. Qed.

(** ** Ranking *)

Section StableSort.

Lemma by_relevance_le (a b : Item) :
  Qle_bool (by_relevance a b) 0 = true <-> (relevance_key b <= relevance_key a)%Q.
Proof.
  rewrite Qle_bool_iff. unfold by_relevance, relevance_key. split; intros; lra.
Qed.

Lemma sort_insert_perm {A} (cmp : A -> A -> Q) (x : A) (l : list A) :
  sort_insert cmp x l ≡ₚ x :: l.
Proof.
  induction l as [|y l IH]; simpl; [done|].
  destruct (Qle_bool (cmp x y) 0); [done|].
  rewrite IH. apply Permutation_swap.
Qed.

Lemma Array_sort_perm {A} (cmp : A -> A -> Q) (l : list A) :
  Array_sort cmp l ≡ₚ l.
Proof.
  induction l as [|x l IH]; simpl; [done|].
  rewrite sort_insert_perm. by rewrite IH.
Qed.

Lemma sort_insert_sorted (x : Item) (l : list Item) :
  non_increasing l -> non_increasing (sort_insert by_relevance x l).
Proof.
  unfold non_increasing. induction 1 as [|y l Hl IH Hy]; simpl.
  - repeat constructor.
  - destruct (Qle_bool (by_relevance x y) 0) eqn:Hxy.
    + apply by_relevance_le in Hxy.
      constructor; [by constructor|].
      constructor; [done|].
      eapply Forall_impl; [exact Hy|]. simpl. intros z Hz. lra.
    + assert (relevance_key x <= relevance_key y)%Q as Hle.
      { destruct (Qlt_le_dec (relevance_key y) (relevance_key x)) as [Hlt|]; [|done].
        apply Qlt_le_weak, by_relevance_le in Hlt. congruence. }
      constructor; [done|].
      rewrite sort_insert_perm. by constructor.
Qed.

Lemma Array_sort_sorted (l : list Item) : non_increasing (Array_sort by_relevance l).
Proof.
  induction l as [|x l IH]; simpl; [constructor|].
  by apply sort_insert_sorted.
Qed.

(** Insertion never moves an entry past one of equal relevance. *)
Lemma with_key_insert (v : Q) (x : Item) (l : list Item) :
  with_key v (sort_insert by_relevance x l) = with_key v (x :: l).
Proof.
  unfold with_key. induction l as [|y l IH]; simpl; [done|].
  destruct (Qle_bool (by_relevance x y) 0) eqn:Hxy; [done|].
  simpl. rewrite IH. simpl.
  destruct (Qeq_bool (relevance_key y) v) eqn:Hy,
           (Qeq_bool (relevance_key x) v) eqn:Hx; try done.
  apply Qeq_bool_iff in Hy, Hx.
  assert (Qle_bool (by_relevance x y) 0 = true); [|congruence].
  apply by_relevance_le. lra.
Qed.

Lemma with_key_sort (v : Q) (l : list Item) :
  with_key v (Array_sort by_relevance l) = with_key v l.
Proof.
  induction l as [|x l IH]; simpl; [done|].
  rewrite with_key_insert. unfold with_key in *. simpl. by rewrite IH.
Qed.

Lemma with_key_take (v : Q) (n : nat) (l : list Item) :
  with_key v (take n l) `prefix_of` with_key v l.
Proof.
  unfold with_key. revert n. induction l as [|x l IH]; intros [|n]; simpl;
    try apply prefix_nil.
  destruct (Qeq_bool (relevance_key x) v); [apply prefix_cons|]; apply IH.
Qed.

Lemma non_increasing_take (n : nat) (l : list Item) :
  non_increasing l -> non_increasing (take n l).
Proof.
  unfold non_increasing. intros Hl. revert n.
  induction Hl as [|x l Hl IH Hx]; intros [|n]; simpl; try constructor.
  - apply IH.
  - eapply Forall_take in Hx. exact Hx.
Qed.

End StableSort.

Lemma Qeq_bool_refl (q : Q) : Qeq_bool q q = true.
Proof. apply Qeq_bool_iff, Qeq_refl. Qed.

Lemma with_key_head (x : Item) (l1 l2 : list Item) :
  with_key (relevance_key x) (x :: l1) = with_key (relevance_key x) l2 -> In x l2.
Proof.
  unfold with_key. simpl. rewrite Qeq_bool_refl. intros Hk.
  eapply (proj1 (filter_In _ x l2)). rewrite <- Hk. by left.
Qed.

(** Two non-increasing sequences with the same entries of each relevance,
    in the same order, are equal: the result of a stable sort does not
    depend on the sorting algorithm. *)
Lemma stable_sorted_unique (l1 l2 : list Item) :
  non_increasing l1 -> non_increasing l2 ->
  (forall v, with_key v l1 = with_key v l2) ->
  l1 = l2.
Proof.
  unfold non_increasing. intros H1. revert l2.
  induction H1 as [|x l1 H1 IH Hx]; intros l2 H2 Hkeys.
  - destruct l2 as [|y l2]; [done|].
    symmetry in Hkeys. by apply with_key_head in Hkeys.
  - destruct H2 as [|y l2 H2 Hy]; [by apply with_key_head in Hkeys|].
    assert (relevance_key x <= relevance_key y)%Q as Hxy.
    { destruct (with_key_head _ _ _ (Hkeys (relevance_key x))) as [->|Hin]; [lra|].
      rewrite Forall_forall in Hy. by apply Hy, list_elem_of_In. }
    assert (relevance_key y <= relevance_key x)%Q as Hyx.
    { destruct (with_key_head _ _ _ (eq_sym (Hkeys (relevance_key y))))
        as [->|Hin]; [lra|].
      rewrite Forall_forall in Hx. by apply Hx, list_elem_of_In. }
    assert (x = y) as ->.
    { pose proof (Hkeys (relevance_key x)) as Hk. unfold with_key in Hk.
      simpl in Hk. rewrite Qeq_bool_refl in Hk.
      assert (Qeq_bool (relevance_key y) (relevance_key x) = true) as Hq
          by (apply Qeq_bool_iff; lra).
      rewrite Hq in Hk. congruence. }
    f_equal. apply IH; [done|]. intros v. specialize (Hkeys v).
    unfold with_key in *. simpl in Hkeys.
    destruct (Qeq_bool (relevance_key y) v); congruence.
Qed.

Lemma Array_sort_unique (l sorted : list Item) :
  non_increasing sorted ->
  (forall v, with_key v sorted = with_key v l) ->
  sorted = Array_sort by_relevance l.
Proof.
  intros Hs Hk. apply stable_sorted_unique; [done|apply Array_sort_sorted|].
  intros v. by rewrite Hk, with_key_sort.
Qed.

Lemma annotate_relevance (query : string) (results : list Item) :
  Forall (fun r => exists q, item_relevance r = Some q /\ (0 <= q <= 1)%Q)
         (annotate query results).
Proof.
  unfold annotate. apply Forall_fmap, Forall_forall. intros result _. simpl.
  eexists. split; [reflexivity|]. apply calculateRelevance_bounds.
Qed.

(** C2: the output of [rankResults] has at most 100 entries, is sorted
    non-increasing by relevance, carries a relevance in [0,1] on every
    entry, and is the first 100 entries of a stable sort of the input:
    the whole scored input is sorted first (a permutation in which entries
    of equal relevance keep their input order), then truncated. *)
Theorem rankResults_sorted_bounded_stable (results : list Item) (query : string) :
  let out := rankResults results query in
  (length out <= 100)%nat /\
  non_increasing out /\
  Forall (fun r => exists q, item_relevance r = Some q /\ (0 <= q <= 1)%Q) out /\
  (forall v, with_key v out `prefix_of` with_key v (annotate query results)) /\
  exists sorted,
    out = take 100 sorted /\
    sorted ≡ₚ annotate query results /\
    non_increasing sorted /\
    forall v, with_key v sorted = with_key v (annotate query results).
Proof.
  unfold rankResults. fold (annotate query results).
  set (ranked := annotate query results).
  pose proof (Array_sort_perm by_relevance ranked) as Hperm.
  pose proof (Array_sort_sorted ranked) as Hsorted.
  repeat split.
  - rewrite length_take. lia.
  - by apply non_increasing_take.
  - apply Forall_take. rewrite Hperm. apply annotate_relevance.
  - intros v. rewrite <- (with_key_sort v ranked). apply with_key_take.
  - exists (Array_sort by_relevance ranked).
    repeat split; [done..|]. intros v. apply with_key_sort.
Qed.

(** ** Graph building *)

Section GraphFacts.

Lemma create_nodes_from (f : nat -> nat) (items : list Item)
      (ns : list GraphNode) (m : gmap string GraphNode) :
  fold_left
    (fun '(nodes, nodeMap) '(index, item) =>
       let node := make_node index item in
       (nodes ++ [node], <[node_id node := node]> nodeMap))
    (imap (fun i item => (f i, item)) items) (ns, m)
  = (ns ++ imap (fun i => make_node (f i)) items,
     index_nodes (imap (fun i => make_node (f i)) items) m).
Proof.
  revert f ns m. induction items as [|item items IH]; intros f ns m; simpl.
  - by rewrite app_nil_r.
  - rewrite (IH (f ∘ S)). by rewrite <- app_assoc.
Qed.

Lemma create_nodes_spec (items : list Item) :
  create_nodes items
  = (imap make_node items, index_nodes (imap make_node items) ∅).
Proof. unfold create_nodes. apply (create_nodes_from (fun i => i)). Qed.

Lemma nodes_convert (items : list Item) :
  nodes (convertToGraphData items) = imap make_node items.
Proof.
  unfold convertToGraphData. rewrite create_nodes_spec. done.
Qed.

(** [nodeMap.get(k)] is the last node pushed with id [k]. *)
Lemma index_nodes_lookup (ns : list GraphNode) (m : gmap string GraphNode)
      (k : string) :
  index_nodes ns m !! k
  = match last (filter (fun node => node_id node = k) ns) with
    | Some node => Some node
    | None => m !! k
    end.
Proof.
  revert m. induction ns as [|n ns IH]; intros m; simpl; [done|].
  unfold index_nodes in *. simpl. rewrite IH.
  rewrite filter_cons. destruct (decide (node_id n = k)) as [Hk|Hk].
  - destruct (filter _ ns) as [|n' ns'] eqn:Hf; simpl.
    + by rewrite Hk, lookup_insert_eq.
    + destruct (last (n' :: ns')) eqn:Hl; [done|]. by apply last_None in Hl.
  - destruct (last _); [done|]. by rewrite lookup_insert_ne.
Qed.

Lemma index_nodes_has (ns : list GraphNode) (k : string) :
  is_Some (index_nodes ns ∅ !! k) <-> k ∈ map node_id ns.
Proof.
  rewrite index_nodes_lookup, list_elem_of_fmap. split.
  - destruct (last _) as [n|] eqn:Hl.
    + intros _. apply last_Some_elem_of, list_elem_of_filter in Hl as [? ?]. eauto.
    + rewrite lookup_empty. by intros [? ?].
  - intros (n & -> & Hn).
    destruct (last _) as [n'|] eqn:Hl; [eauto|].
    apply last_None in Hl.
    assert (n ∈ filter (fun node => node_id node = node_id n) ns) as Hin
        by (by apply list_elem_of_filter).
    rewrite Hl in Hin. by apply not_elem_of_nil in Hin.
Qed.

Lemma create_links_from (nodeMap : gmap string GraphNode) (items : list Item)
      (acc : list GraphLink) :
  fold_left
    (fun links item =>
       match item_relationships item with
       | Some rels =>
           fold_left
             (fun links rel =>
                if decide (is_Some (nodeMap !! rel_target rel))
                then links ++ [make_link item rel]
                else links)
             rels links
       | None => links
       end)
    items acc
  = acc ++ flat_map (links_of nodeMap) items.
Proof.
  revert acc. induction items as [|item items IH]; intros acc; simpl.
  - by rewrite app_nil_r.
  - rewrite IH, app_assoc. f_equal. unfold links_of.
    destruct (item_relationships item) as [rels|]; [|by rewrite app_nil_r].
    clear IH. revert acc. induction rels as [|rel rels IH]; intros acc; simpl.
    + by rewrite app_nil_r.
    + rewrite IH, filter_cons.
      destruct (decide (is_Some _)); [|done]. by rewrite <- app_assoc.
Qed.

Lemma create_links_spec (items : list Item) (nodeMap : gmap string GraphNode) :
  create_links items nodeMap = flat_map (links_of nodeMap) items.
Proof. unfold create_links. by rewrite create_links_from. Qed.

End GraphFacts.

Section Fallback.

Lemma chain_drop (group : list GraphNode) (i : nat) (a b : GraphNode) :
  group !! i = Some a -> group !! (i + 1)%nat = Some b ->
  chain (drop i group) = similarity_link a b :: chain (drop (S i) group).
Proof.
  intros Ha Hb.
  rewrite (drop_S _ _ _ Ha). replace (i + 1)%nat with (S i) in Hb by lia.
  rewrite (drop_S _ _ _ Hb). done.
Qed.

Lemma connect_group_from (group : list GraphNode) (n i : nat)
      (acc : list GraphLink) :
  (i + n = length group - 1)%nat ->
  fold_left
    (fun links i =>
       match group !! i, group !! (i + 1)%nat with
       | Some a, Some b => links ++ [similarity_link a b]
       | _, _ => links
       end)
    (seq i n) acc
  = acc ++ chain (drop i group).
Proof.
  revert i acc. induction n as [|n IH]; intros i acc Hn; simpl.
  - assert (length (drop i group) <= 1)%nat as Hl by (rewrite length_drop; lia).
    destruct (drop i group) as [|a [|b rest]]; simpl in *;
      [by rewrite app_nil_r..|lia].
  - destruct (lookup_lt_is_Some_2 group i) as [a Ha]; [lia|].
    destruct (lookup_lt_is_Some_2 group (i + 1)) as [b Hb]; [lia|].
    rewrite Ha, Hb, IH by lia.
    rewrite (chain_drop _ _ _ _ Ha Hb), <- app_assoc. done.
Qed.

Lemma connect_group_spec (group : list GraphNode) (acc : list GraphLink) :
  connect_group group acc = acc ++ chain group.
Proof. unfold connect_group. by rewrite connect_group_from by lia. Qed.

Lemma connect_groups (groups : TypeGroups) (acc : list GraphLink) :
  fold_left (fun links '(_, group) => connect_group group links) groups acc
  = acc ++ flat_map (fun g => chain g.2) groups.
Proof.
  revert acc. induction groups as [|[ty group] groups IH]; intros acc; simpl.
  - by rewrite app_nil_r.
  - by rewrite IH, connect_group_spec, app_assoc.
Qed.

Lemma first_occurrences_snoc (l : list string) (k : string) :
  first_occurrences (l ++ [k])
  = if decide (k ∈ l) then first_occurrences l else first_occurrences l ++ [k].
Proof.
  unfold first_occurrences. rewrite reverse_snoc. simpl.
  destruct (decide_rel elem_of k (reverse l)) as [Hin|Hin];
    rewrite elem_of_reverse in Hin; destruct (decide (k ∈ l)); try done.
  by rewrite reverse_cons.
Qed.

Lemma first_occurrences_pair (k : string) : first_occurrences [k; k] = [k].
Proof.
  change [k; k] with ([k] ++ [k]).
  rewrite first_occurrences_snoc, decide_True by apply list_elem_of_here.
  change [k] with ([] ++ [k]).
  by rewrite first_occurrences_snoc, decide_False by apply not_elem_of_nil.
Qed.

Lemma elem_of_first_occurrences (l : list string) (k : string) :
  k ∈ first_occurrences l <-> k ∈ l.
Proof.
  unfold first_occurrences.
  by rewrite elem_of_reverse, elem_of_remove_dups, elem_of_reverse.
Qed.

Lemma NoDup_first_occurrences (l : list string) : NoDup (first_occurrences l).
Proof.
  unfold first_occurrences. rewrite reverse_Permutation. apply NoDup_remove_dups.
Qed.

Lemma filter_type_nil (ns : list GraphNode) (ty : string) :
  ty ∉ map node_type ns -> filter (fun n => node_type n = ty) ns = [].
Proof.
  induction ns as [|n ns IH]; simpl; [done|]. intros Hty.
  apply not_elem_of_cons in Hty as [Hn Hns].
  rewrite filter_cons, decide_False by done. by apply IH.
Qed.

(** Pushing [node] into the group of its type, over groups that are the
    nodes seen so far filtered by type. *)
Lemma groups_push_filter (ns : list GraphNode) (node : GraphNode)
      (tys : list string) :
  NoDup tys ->
  groups_push (node_type node) node
    (map (fun ty => (ty, filter (fun n => node_type n = ty) ns)) tys)
  = map (fun ty => (ty, filter (fun n => node_type n = ty) (ns ++ [node]))) tys.
Proof.
  induction 1 as [|ty tys Hty Hnd IH]; simpl; [done|].
  rewrite filter_app, filter_cons, filter_nil.
  destruct (decide (ty = node_type node)) as [Heq|Hne].
  - rewrite decide_True by done. f_equal.
    apply map_ext_in. intros ty' Hin%list_elem_of_In.
    rewrite filter_app, filter_cons, filter_nil.
    rewrite decide_False, app_nil_r; [done|]. intros Heq'. congruence.
  - rewrite decide_False, app_nil_r by done. by rewrite IH.
Qed.

Lemma groups_by_type_keys (ns : list GraphNode) :
  (groups_by_type ns).*1 = first_occurrences (map node_type ns).
Proof.
  unfold groups_by_type. rewrite <- list_fmap_compose.
  apply list_fmap_id.
Qed.

Lemma group_nodes_snoc (ns : list GraphNode) (node : GraphNode) :
  group_nodes (ns ++ [node])
  = groups_push (node_type node) node
      (if groups_has (node_type node) (group_nodes ns) then group_nodes ns
       else group_nodes ns ++ [(node_type node, [])]).
Proof. unfold group_nodes. by rewrite fold_left_app. Qed.

Lemma group_nodes_spec (ns : list GraphNode) :
  group_nodes ns = groups_by_type ns.
Proof.
  induction ns as [|node ns IH] using rev_ind; [done|].
  rewrite group_nodes_snoc, IH. unfold groups_has.
  rewrite groups_by_type_keys.
  unfold groups_by_type at 3. rewrite map_app. simpl.
  rewrite first_occurrences_snoc.
  pose proof (NoDup_first_occurrences (map node_type ns)) as Hnd.
  destruct (decide (node_type node ∈ map node_type ns)) as [Hin|Hin].
  - rewrite bool_decide_eq_true_2 by (by apply elem_of_first_occurrences).
    by apply groups_push_filter.
  - rewrite bool_decide_eq_false_2 by (by rewrite elem_of_first_occurrences).
    assert (groups_by_type ns ++ [(node_type node, [])]
            = map (fun ty => (ty, filter (fun n => node_type n = ty) ns))
                  (first_occurrences (map node_type ns) ++ [node_type node]))
      as ->.
    { rewrite map_app. simpl. by rewrite filter_type_nil. }
    apply groups_push_filter, NoDup_app.
    split; [done|]. split; [|apply NoDup_singleton].
    intros ty Hty ->%list_elem_of_singleton.
    apply Hin. by apply elem_of_first_occurrences.
Qed.

End Fallback.

Section ConvertFacts.

Lemma explicit_links_spec (items : list Item) :
  explicit_links items
  = flat_map (links_of (index_nodes (imap make_node items) ∅)) items.
Proof.
  unfold explicit_links. by rewrite create_nodes_spec, create_links_spec.
Qed.

(** The third step of [convertToGraphData]. *)
Lemma links_convert (items : list Item) :
  links (convertToGraphData items)
  = if (length (explicit_links items) =? 0)%nat && (1 <? length items)%nat
    then flat_map (fun g => chain g.2) (groups_by_type (imap make_node items))
    else explicit_links items.
Proof.
  unfold convertToGraphData, explicit_links.
  rewrite create_nodes_spec. simpl. rewrite length_imap.
  destruct (_ && _) eqn:Hc; [|done].
  apply andb_prop in Hc as [Hl%Nat.eqb_eq%nil_length_inv _].
  by rewrite connect_groups, group_nodes_spec, Hl.
Qed.

Lemma elem_of_chain (group : list GraphNode) (l : GraphLink) :
  l ∈ chain group ->
  exists a b, a ∈ group /\ b ∈ group /\ l = similarity_link a b.
Proof.
  induction group as [|a [|b rest] IH]; simpl; try by intros ?%not_elem_of_nil.
  intros [->|Hl]%elem_of_cons.
  - exists a, b. split; [apply list_elem_of_here|].
    split; [apply list_elem_of_further, list_elem_of_here|done].
  - destruct (IH Hl) as (a' & b' & ? & ? & ?). exists a', b'.
    auto using list_elem_of_further.
Qed.

Lemma elem_of_fallback (ns : list GraphNode) (l : GraphLink) :
  l ∈ flat_map (fun g => chain g.2) (groups_by_type ns) ->
  exists a b, a ∈ ns /\ b ∈ ns /\ l = similarity_link a b.
Proof.
  intros Hl%list_elem_of_In%in_flat_map. destruct Hl as ([ty group] & Hg & Hl).
  apply list_elem_of_In in Hg, Hl. simpl in Hl.
  unfold groups_by_type in Hg.
  apply list_elem_of_fmap in Hg as (ty' & [= -> ->] & _).
  apply elem_of_chain in Hl as (a & b & Ha & Hb & ->).
  apply list_elem_of_filter in Ha as [_ Ha], Hb as [_ Hb]. eauto.
Qed.

Lemma elem_of_explicit (items : list Item) (l : GraphLink) :
  l ∈ explicit_links items ->
  exists item rel rels,
    item ∈ items /\ item_relationships item = Some rels /\ rel ∈ rels /\
    rel_target rel ∈ map node_id (imap make_node items) /\
    l = make_link item rel.
Proof.
  rewrite explicit_links_spec.
  intros Hl%list_elem_of_In%in_flat_map. destruct Hl as (item & Hi & Hl).
  apply list_elem_of_In in Hi, Hl. unfold links_of in Hl.
  destruct (item_relationships item) as [rels|] eqn:Hr;
    [|by apply not_elem_of_nil in Hl].
  apply list_elem_of_fmap in Hl as (rel & -> & Hrel).
  apply list_elem_of_filter in Hrel as [Hhas Hrel].
  apply index_nodes_has in Hhas. eauto 10.
Qed.

(** Every link is either a chain link between two built nodes or comes
    from a relationship of some record whose target is a built node. *)
Lemma elem_of_links (items : list Item) (l : GraphLink) :
  l ∈ links (convertToGraphData items) ->
  (exists a b, a ∈ imap make_node items /\ b ∈ imap make_node items /\
               l = similarity_link a b) \/
  (exists item rel rels,
     item ∈ items /\ item_relationships item = Some rels /\ rel ∈ rels /\
     rel_target rel ∈ map node_id (imap make_node items) /\
     l = make_link item rel).
Proof.
  rewrite links_convert. destruct (_ && _).
  - intros ?%elem_of_fallback. by left.
  - intros ?%elem_of_explicit. by right.
Qed.

Lemma make_node_id (index : nat) (item : Item) :
  node_id (make_node index item)
  = default ("node-" +:+ pretty index) (item_id item).
Proof. unfold make_node. simpl. by destruct (item_id item). Qed.

Lemma item_node (items : list Item) (item : Item) :
  item ∈ items -> exists i, make_node i item ∈ imap make_node items.
Proof.
  intros (i & Hi)%list_elem_of_lookup. exists i.
  apply list_elem_of_lookup. exists i. by rewrite list_lookup_imap, Hi.
Qed.

End ConvertFacts.

(** C3, as stated, fails: [{id:"a"},{id:"a",name:"dup"}] yields two nodes
    with id "a", so node ids are not unique. *)
Lemma duplicate_id_counterexample :
  let g := convertToGraphData
             [entry (Some "a") None None None;
              entry (Some "a") (Some "dup") None None] in
  length (filter (fun node => node_id node = "a") (nodes g)) = 2%nat /\
  ~ NoDup (map node_id (nodes g)).
Proof.
  split; [reflexivity|]. vm_compute.
  intros Hnd. apply NoDup_cons in Hnd as [Hnotin _].
  apply Hnotin, list_elem_of_here.
Qed.

(** C3, amended: the node sequence holds exactly one node per input
    record, in input order, a record without id getting [node-<index>];
    records that share an id yield several nodes with that id.  Only the
    id index used to validate link targets has one entry per distinct id,
    the last record with that id winning.  [{id:"a"},{id:"a",name:"dup"}]
    yields two nodes with id "a", and the index entry for "a" is the
    second. *)
Theorem one_node_per_record :
  (forall items, nodes (convertToGraphData items) = imap make_node items) /\
  (forall items, length (nodes (convertToGraphData items)) = length items) /\
  (forall index item,
     node_item (make_node index item) = item /\
     node_id (make_node index item)
     = default ("node-" +:+ pretty index) (item_id item)) /\
  (forall items k,
     (create_nodes items).2 !! k
     = last (filter (fun node => node_id node = k)
                    (nodes (convertToGraphData items)))) /\
  (let items := [entry (Some "a") None None None;
                 entry (Some "a") (Some "dup") None None] in
   map node_id (nodes (convertToGraphData items)) = ["a"; "a"] /\
   node_name <$> (create_nodes items).2 !! "a" = Some "dup").
Proof.
  split; [exact nodes_convert|]. split.
  { intros items. by rewrite nodes_convert, length_imap. }
  split.
  { intros index item. split; [done|apply make_node_id]. }
  split.
  { intros items k. rewrite nodes_convert, create_nodes_spec. simpl.
    rewrite index_nodes_lookup, lookup_empty. by destruct (last _). }
  split; vm_compute; reflexivity.
Qed.

(** C4 at [{relationships:[{target:"b"}]}, {id:"b"}]: the first record has
    no id, its node is "node-0", and its link to "b" is built with
    [item.id], which is undefined: the link's source is no node id. *)
Theorem link_source_without_id :
  let g := convertToGraphData
             [entry None None None (Some [{| rel_target := "b"; rel_strength := None |}]);
              entry (Some "b") None None None] in
  map node_id (nodes g) = ["node-0"; "b"] /\
  links g = [{| link_source := None; link_target := "b"; link_value := 1 |}] /\
  ~ Forall (fun l => exists node, node ∈ nodes g /\ link_source l = Some (node_id node))
           (links g).
Proof.
  split; [reflexivity|]. split; [reflexivity|].
  vm_compute. intros H. apply Forall_cons in H as [(node & _ & Hs) _].
  discriminate Hs.
Qed.

(** On every input a link's target is a node id, so a relationship to an
    id that no node has leaves no link; and the source is a node id too
    when every record carries an id. *)
Lemma link_endpoints_with_ids (items : list Item) :
  let g := convertToGraphData items in
  Forall (fun l => link_target l ∈ map node_id (nodes g)) (links g) /\
  (Forall (fun item => is_Some (item_id item)) items ->
   Forall (fun l => exists node, node ∈ nodes g /\ link_source l = Some (node_id node))
          (links g)).
Proof.
  simpl. rewrite nodes_convert. split.
  - apply Forall_forall. intros l [(a & b & _ & Hb & ->)|Hl]%elem_of_links.
    + simpl. apply list_elem_of_fmap. eauto.
    + destruct Hl as (item & rel & rels & _ & _ & _ & Ht & ->). done.
  - intros Hids. apply Forall_forall.
    intros l [(a & b & Ha & _ & ->)|Hl]%elem_of_links; [by eauto|].
    destruct Hl as (item & rel & rels & Hi & _ & _ & _ & ->).
    destruct (item_node _ _ Hi) as [i Hn].
    exists (make_node i item). split; [done|].
    rewrite make_node_id. simpl.
    rewrite Forall_forall in Hids. by destruct (Hids _ Hi) as [id ->].
Qed.

(** C5: when the relationships leave no link and there are at least two
    nodes, the links are the chains of the type groups: nodes grouped by
    type, groups in order of first occurrence, each group in node order,
    consecutive members joined with strength 0.5.  Two nodes of one type
    and no link from relationships give exactly the one link joining
    them.  When the relationships leave a link, nothing is added. *)
Theorem fallback_links_chain_groups :
  (forall items,
     explicit_links items = [] ->
     (2 <= length (nodes (convertToGraphData items)))%nat ->
     links (convertToGraphData items)
     = flat_map (fun g => chain g.2)
                (groups_by_type (nodes (convertToGraphData items))) /\
     Forall (fun l => link_value l = 1 # 2) (links (convertToGraphData items))) /\
  (forall a b,
     explicit_links [a; b] = [] ->
     node_type (make_node 0 a) = node_type (make_node 1 b) ->
     links (convertToGraphData [a; b])
     = [{| link_source := Some (node_id (make_node 0 a));
           link_target := node_id (make_node 1 b);
           link_value := 1 # 2 |}]) /\
  (forall items,
     explicit_links items <> [] ->
     links (convertToGraphData items) = explicit_links items).
Proof.
  split; [|split].
  - intros items Hnone Hlen. rewrite nodes_convert in *.
    rewrite length_imap in Hlen.
    assert (links (convertToGraphData items)
            = flat_map (fun g => chain g.2) (groups_by_type (imap make_node items)))
      as Hlinks.
    { rewrite links_convert, Hnone. simpl.
      by rewrite (proj2 (Nat.ltb_lt 1 (length items))) by lia. }
    split; [done|]. rewrite Hlinks. apply Forall_forall.
    intros l (a & b & _ & _ & ->)%elem_of_fallback. done.
  - intros a b Hnone Hty. rewrite links_convert, Hnone. clear Hnone.
    change (imap make_node [a; b]) with [make_node 0 a; make_node 1 b].
    change ((length (@nil GraphLink) =? 0)%nat && (1 <? length [a; b])%nat)
      with true. cbv iota.
    revert Hty. generalize (make_node 0 a), (make_node 1 b). intros na nb Hty.
    unfold groups_by_type.
    change (map node_type [na; nb]) with [node_type na; node_type nb].
    rewrite Hty, first_occurrences_pair.
    cbn [map flat_map]. rewrite !filter_cons, filter_nil, Hty.
    rewrite !decide_True by done. done.
  - intros items Hsome. rewrite links_convert.
    destruct (explicit_links items); [done|]. done.
Qed.

Lemma fallback_links_chain_groups_witness :
  let items := [entry (Some "a") None (Some "web") None;
                entry (Some "b") None (Some "web") None] in
  explicit_links items = [] /\
  links (convertToGraphData items)
  = [{| link_source := Some "a"; link_target := "b"; link_value := 1 # 2 |}] /\
  Forall (fun l => link_value l = 1 # 2) (links (convertToGraphData items)).
Proof.
  split; [reflexivity|]. split.
  - apply (proj1 (proj2 fallback_links_chain_groups)); reflexivity.
  - apply (proj1 fallback_links_chain_groups); [reflexivity|].
    vm_compute. lia.
Defined.

(** ** Link strength *)




(** ** Searching *)

Section SearchFacts.

Variable this : DataManager.t.
Variable query : string.

Lemma own_keys_not_inherited :
  Forall (fun source => get_property this source <> Inherited)
         (Object_keys (searchProviders this)).
Proof. repeat constructor; discriminate. Qed.

Lemma search_source_settles (source : string) :
  get_property this source <> Inherited ->
  exists promise,
    search_source this query source = Fulfilled promise /\
    promise = Fulfilled (settled_value this query source).
Proof.
  unfold search_source, settled_value. intros Hp.
  destruct (get_property this source) as [provider| |]; [|done|by eauto].
  destruct (provider query); by eauto.
Qed.

Lemma promises_settle (sources : list string) :
  Forall (fun source => get_property this source <> Inherited) sources ->
  exists promises,
    mapM (search_source this query) sources = Fulfilled promises /\
    Promise_all promises = Fulfilled (map (settled_value this query) sources).
Proof.
  induction 1 as [|source sources Hs _ (promises & Hmap & Hall)]; simpl.
  - by exists [].
  - destruct (search_source_settles source Hs) as (promise & Hp & ->).
    eexists. rewrite Hp. simpl. rewrite Hmap. simpl. split; [done|].
    simpl. by rewrite Hall.
Qed.

Lemma merge_results_from (values : list SearchValue) (acc : list Item) :
  fold_left
    (fun results items =>
       match items with
       | ArrayOf items => results ++ items
       | NotArray => results
       end)
    values acc
  = acc ++ flat_map (fun v => match v with ArrayOf items => items | NotArray => [] end)
                    values.
Proof.
  revert acc. induction values as [|v values IH]; intros acc; simpl.
  - by rewrite app_nil_r.
  - rewrite IH. destruct v; [by rewrite app_assoc | done].
Qed.

Lemma merge_settled (sources : list string) :
  merge_results (map (settled_value this query) sources)
  = flat_map (contribution this query) sources.
Proof.
  unfold merge_results. rewrite merge_results_from. simpl.
  induction sources as [|source sources IH]; simpl; [done|].
  by rewrite IH.
Qed.

Lemma search_resolves (sources : list string) :
  Forall (fun source => get_property this source <> Inherited)
         (active_sources this sources) ->
  search this query sources
  = Fulfilled (rankResults (flat_map (contribution this query)
                                     (active_sources this sources)) query).
Proof.
  intros Hs. unfold search. fold (active_sources this sources).
  destruct (promises_settle _ Hs) as (promises & -> & Hall). simpl.
  rewrite Hall. simpl. by rewrite merge_settled.
Qed.

End SearchFacts.

Lemma not_inherited (this : DataManager.t) (source : string) :
  source ∉ Object_prototype_keys -> get_property this source <> Inherited.
Proof.
  intros Hs. unfold get_property. destruct (_ !! source); [done|].
  by rewrite bool_decide_eq_false_2.
Qed.

Lemma own_provider (this : DataManager.t) (source : string) (provider : Provider) :
  get_property this source = Own provider ->
  provider ∈ [icosa this; objaverse this; github this; web this; local this].
Proof.
  unfold get_property.
  destruct (_ !! source) as [p|] eqn:Hl; [|by destruct (bool_decide _)].
  intros [= <-]. apply elem_of_list_to_map_2 in Hl. unfold searchProviders in Hl.
  repeat (apply elem_of_cons in Hl as [[= _ <-]|Hl];
          [eauto 6 using list_elem_of_here, list_elem_of_further|]).
  by apply not_elem_of_nil in Hl.
Qed.

(** C6: whatever the providers do, the search resolves, with the ranking
    of the records of the sources searched, taken source by source in
    order: a provider that rejects contributes nothing, any other
    contributes the array it resolved with, unchanged.  When every
    provider rejects the result is the empty sequence.  The sources are
    "all" or tags, none of which names a member of [Object.prototype]. *)
Theorem search_isolates_provider_failures
        (this : DataManager.t) (query : string) (sources : list string) :
  "all" ∈ sources \/ Forall (fun source => source ∉ Object_prototype_keys) sources ->
  search this query sources
  = Fulfilled (rankResults (flat_map (contribution this query)
                                     (active_sources this sources)) query) /\
  (forall source provider,
     get_property this source = Own provider ->
     contribution this query source
     = match provider query with
       | Fulfilled (ArrayOf items) => items
       | _ => []
       end) /\
  ((forall source provider,
      get_property this source = Own provider ->
      exists e, provider query = Rejected e) ->
   search this query sources = Fulfilled []).
Proof.
  intros Hsources.
  assert (Forall (fun source => get_property this source <> Inherited)
                 (active_sources this sources)) as Hactive.
  { unfold active_sources. destruct Hsources as [Hall|Htags].
    - rewrite bool_decide_eq_true_2 by done. apply own_keys_not_inherited.
    - destruct (bool_decide _); [apply own_keys_not_inherited|].
      eapply Forall_impl; [exact Htags|]. apply not_inherited. }
  split; [by apply search_resolves|]. split.
  - intros source provider Hp. unfold contribution, settled_value. rewrite Hp.
    by destruct (provider query) as [[]|].
  - intros Hfail. rewrite search_resolves by done.
    assert (flat_map (contribution this query) (active_sources this sources) = [])
      as ->; [|done].
    clear Hactive.
    induction (active_sources this sources) as [|source l IH]; simpl; [done|].
    rewrite IH, app_nil_r. unfold contribution, settled_value.
    destruct (get_property this source) as [provider| |] eqn:Hp; [|done..].
    by destruct (Hfail _ _ Hp) as [e ->].
Qed.

Lemma search_isolates_provider_failures_witness :
  search failing "helmet" ["all"] = Fulfilled [] /\
  search failing "helmet" ["web"; "unknown"] = Fulfilled [].
Proof.
  split.
  - apply (search_isolates_provider_failures failing "helmet" ["all"]).
    + left. apply list_elem_of_here.
    + intros source provider Hp%own_provider. exists SearchError.
      repeat (apply elem_of_cons in Hp as [->|Hp]; [done|]).
      by apply not_elem_of_nil in Hp.
  - apply (search_isolates_provider_failures failing "helmet" ["web"; "unknown"]).
    + right. apply (bool_decide_unpack _). vm_compute. exact I.
    + intros source provider Hp%own_provider. exists SearchError.
      repeat (apply elem_of_cons in Hp as [->|Hp]; [done|]).
      by apply not_elem_of_nil in Hp.
Defined.

(** C10 at the tag "toString", for any manager and query: the registry is
    an object literal, so [this.searchProviders["toString"]] is the
    function inherited from [Object.prototype]; [?.] lets it through, its
    [search] is undefined, the call throws and the search rejects, alone
    or next to a registered source. *)
Theorem search_inherited_tag_rejects (this : DataManager.t) (query : string) :
  get_property this "toString" = Inherited /\
  search this query ["toString"] = Rejected TypeError /\
  search this query ["web"; "toString"] = Rejected TypeError.
Proof. repeat split. Qed.

(** ** Superseded queries *)

Lemma run_snoc (dm : DataManager.t) (evs : list Event) (ev : Event) (st : State) :
  run dm (evs ++ [ev]) st = step dm (run dm evs st) ev.
Proof. unfold run. by rewrite fold_left_app. Qed.

(** C9, as stated, fails: "q1" is issued, then "q2"; the search for "q2"
    settles first and the one for "q1" after it.  The page ends up showing
    the graph of "q1", which is not the graph of "q2". *)
Lemma stale_result_counterexample :
  let st := run demo [Issue "q1" ["web"]; Issue "q2" ["web"]; Settle 1; Settle 0]
                initial in
  displayed st = graph_of demo "q1" ["web"] /\
  displayed st <> graph_of demo "q2" ["web"].
Proof.
  split; [reflexivity|].
  vm_compute. intros H. discriminate H.
Qed.

(** C9, amended: no generation is tracked and no result is discarded.
    Issuing a query leaves the display as it is; each search that
    resolves replaces the display with its own graph when it settles,
    whatever was issued in between.  The page therefore shows the graph
    of the search that settled last: with Q1 issued before Q2, it ends on
    Q2's graph when Q1 settles first and on Q1's when Q1 settles last. *)
Theorem display_follows_last_settled (dm : DataManager.t) :
  (forall evs st query sources,
     displayed (run dm (evs ++ [Issue query sources]) st)
     = displayed (run dm evs st)) /\
  (forall evs st k call results,
     pending (run dm evs st) !! k = Some call ->
     search dm (call_query call) (call_sources call) = Fulfilled results ->
     displayed (run dm (evs ++ [Settle k]) st)
     = Some (convertToGraphData results)) /\
  (forall q1 s1 q2 s2 r1 r2,
     search dm q1 s1 = Fulfilled r1 ->
     search dm q2 s2 = Fulfilled r2 ->
     displayed (run dm [Issue q1 s1; Issue q2 s2; Settle 0; Settle 1] initial)
     = Some (convertToGraphData r2) /\
     displayed (run dm [Issue q1 s1; Issue q2 s2; Settle 1; Settle 0] initial)
     = Some (convertToGraphData r1)).
Proof.
  split; [|split].
  - intros evs st query sources. by rewrite run_snoc.
  - intros evs st k call results Hk Hr. rewrite run_snoc. simpl.
    by rewrite Hk, Hr.
  - intros q1 s1 q2 s2 r1 r2 H1 H2. unfold run. simpl.
    rewrite lookup_insert_ne, lookup_insert_eq by done. simpl.
    rewrite lookup_insert_eq. simpl. rewrite H1, H2. simpl.
    rewrite lookup_delete_ne, lookup_insert_eq by done. simpl.
    rewrite lookup_delete_ne, lookup_insert_ne, lookup_insert_eq by done. simpl.
    by rewrite H1, H2.
Qed.

Lemma display_follows_last_settled_witness :
  displayed (run demo ([Issue "q1" ["web"]; Issue "q2" ["web"]; Settle 1] ++ [Settle 0])
                 initial)
  = graph_of demo "q1" ["web"].
Proof.
  apply (proj1 (proj2 (display_follows_last_settled demo))
           [Issue "q1" ["web"]; Issue "q2" ["web"]; Settle 1] initial 0%nat
           {| call_query := "q1"; call_sources := ["web"] |}); reflexivity.
Defined.

(** * Further properties *)

(** ** Scores *)

Section ScoreFacts.

Lemma word_sum_le (text : string) (all words : list string) :
  (Qsum (map (fun w => if includes text w then word_share all else 0) words)
   <= inject_Z (Z.of_nat (length words)) * word_share all)%Q.
Proof.
  pose proof (word_share_nonneg all) as Hd.
  induction words as [|w words IH].
  - change (0 <= 0 * word_share all)%Q. lra.
  - change (Qsum (map _ (w :: words)))
      with ((if includes text w then word_share all else 0)
            + Qsum (map (fun w => if includes text w then word_share all else 0)
                        words))%Q.
    change (length (w :: words)) with (S (length words)).
    rewrite Nat2Z.inj_succ. unfold Z.succ. rewrite inject_Z_plus.
    change (inject_Z 1) with 1%Q.
    destruct (includes text w); nra.
Qed.

Lemma full_share (words : list string) :
  words <> [] ->
  (inject_Z (Z.of_nat (length words)) * word_share words == 3 # 10)%Q.
Proof.
  intros Hne. unfold word_share. field.
  destruct words as [|w ws]; [done|].
  unfold Qeq. simpl. lia.
Qed.

Lemma word_sum_le_share (text query : string) :
  (Qsum (map (fun w => if includes text w
                       then word_share (split_ws (toLowerCase query)) else 0)
             (split_ws (toLowerCase query)))
   <= 3 # 10)%Q.
Proof.
  rewrite <- (full_share (split_ws (toLowerCase query)))
    by apply split_ws_nonempty.
  apply word_sum_le.
Qed.

Lemma calculateRelevance_lt_1 (query : string) (result : Item) :
  (calculateRelevance query result < 1)%Q.
Proof.
  rewrite calculateRelevance_formula. unfold relevance_formula.
  pose proof (word_sum_le_share (candidate_text result) query).
  apply Q.min_lt_iff. right.
  destruct (includes _ (toLowerCase query)); lra.
Qed.

End ScoreFacts.

(** X1: the cap of [Math.min(score, 1)] is never reached: every score is
    below 1.  A record whose text does not contain the whole query scores
    below 0.5, so it ranks below every record whose text does. *)
Theorem whole_query_outranks_words :
  (forall query result, calculateRelevance query result < 1)%Q /\
  (forall query result,
     includes (candidate_text result) (toLowerCase query) = false ->
     calculateRelevance query result < 1 # 2)%Q /\
  (forall query whole partial,
     includes (candidate_text whole) (toLowerCase query) = true ->
     includes (candidate_text partial) (toLowerCase query) = false ->
     calculateRelevance query partial < calculateRelevance query whole)%Q.
Proof.
  assert (forall query result,
            includes (candidate_text result) (toLowerCase query) = false ->
            calculateRelevance query result < 1 # 2)%Q as Hpartial.
  { intros query result Hno. rewrite calculateRelevance_formula.
    unfold relevance_formula. rewrite Hno.
    pose proof (word_sum_le_share (candidate_text result) query).
    apply Q.min_lt_iff. right. lra. }
  split; [|split].
  - exact calculateRelevance_lt_1.
  - exact Hpartial.
  - intros query whole partial Hw Hp.
    pose proof (Hpartial _ _ Hp).
    assert (1 # 2 <= calculateRelevance query whole)%Q; [|lra].
    unfold calculateRelevance. rewrite Hw. apply Q.min_glb; [|lra].
    rewrite fold_score.
    pose proof (word_sum_nonneg (candidate_text whole)
                  (split_ws (toLowerCase query)) (split_ws (toLowerCase query))).
    lra.
Qed.

Lemma whole_query_outranks_words_witness :
  (calculateRelevance "helmet" (record (Some "Lantern") None)
   < calculateRelevance "helmet" (record (Some "Damaged Helmet") None))%Q.
Proof.
  apply (proj2 (proj2 whole_query_outranks_words)); reflexivity.
Defined.

(** ** Ranking again *)

Section RankFacts.

Lemma annotate_fixed (query : string) (l : list Item) (x : Item) :
  x ∈ annotate query l ->
  with_relevance x (calculateRelevance query x) = x.
Proof.
  unfold annotate. intros (r & -> & _)%list_elem_of_fmap. reflexivity.
Qed.

Lemma annotate_id (query : string) (l s : list Item) :
  (forall x, x ∈ s -> x ∈ annotate query l) -> annotate query s = s.
Proof.
  intros Hs. unfold annotate at 1.
  induction s as [|x s IH]; simpl; [done|].
  rewrite (annotate_fixed query l x) by apply Hs, list_elem_of_here.
  f_equal. apply IH. intros y Hy. by apply Hs, list_elem_of_further.
Qed.

Lemma Array_sort_sorted_id (l : list Item) :
  non_increasing l -> Array_sort by_relevance l = l.
Proof. intros Hl. symmetry. by apply Array_sort_unique. Qed.

End RankFacts.

(** X2: ranking keeps [min(100, n)] of the [n] records it is given, every
    one of them a record of the input with its score (none invented, none
    repeated), and ranking a ranked sequence again for the same query
    changes nothing. *)
Theorem rankResults_selects_and_settles (results : list Item) (query : string) :
  length (rankResults results query) = (100 `min` length results)%nat /\
  rankResults results query ⊆+ annotate query results /\
  rankResults (rankResults results query) query = rankResults results query.
Proof.
  unfold rankResults. fold (annotate query results).
  set (sorted := Array_sort by_relevance (annotate query results)).
  assert (sorted ≡ₚ annotate query results) as Hperm
      by apply Array_sort_perm.
  split; [|split].
  - rewrite length_take, Hperm. unfold annotate. by rewrite length_map.
  - rewrite <- Hperm. apply sublist_submseteq, sublist_take.
  - fold (annotate query (take 100 sorted)).
    rewrite (annotate_id query results).
    + rewrite Array_sort_sorted_id
        by apply non_increasing_take, Array_sort_sorted.
      by rewrite take_take, Nat.min_id.
    + intros x Hx%elem_of_take. destruct Hx as (i & Hx & _).
      rewrite <- Hperm. by eapply list_elem_of_lookup_2.
Qed.

(** ** The search box *)

Section TrimFacts.

Lemma lower_char_space (c : ascii) : is_space (lower_char c) = is_space c.
Proof. by destruct c as [[] [] [] [] [] [] [] []]. Qed.

Lemma toLowerCase_empty (s : string) : toLowerCase s = "" <-> s = "".
Proof. by destruct s. Qed.

Lemma starts_space_lower (s : string) :
  starts_space (toLowerCase s) = starts_space s.
Proof. destruct s; [done|]. apply lower_char_space. Qed.

Lemma ends_space_lower (s : string) :
  ends_space (toLowerCase s) = ends_space s.
Proof.
  induction s as [|c s IH]; [done|]. simpl.
  destruct s as [|c' s]; [apply lower_char_space | exact IH].
Qed.

Lemma starts_space_trim_start (s : string) : starts_space (trim_start s) = false.
Proof.
  induction s as [|c s IH]; [done|]. simpl.
  destruct (is_space c) eqn:Hc; [done|]. simpl. exact Hc.
Qed.

Lemma starts_space_trim_end (s : string) :
  starts_space s = false -> starts_space (trim_end s) = false.
Proof.
  destruct s as [|c s]; [done|]. simpl. intros Hc.
  destruct (trim_end s); rewrite ?Hc; done.
Qed.

Lemma ends_space_trim_end (s : string) : ends_space (trim_end s) = false.
Proof.
  induction s as [|c s IH]; [done|]. simpl.
  destruct (trim_end s) as [|c' t] eqn:Ht.
  - destruct (is_space c) eqn:Hc; [done|]. simpl. exact Hc.
  - exact IH.
Qed.

(** The first piece of a split is empty exactly when the string is empty
    or begins with white space; a later piece is empty exactly when the
    string ends with white space. *)
Lemma split_ws_shape (s : string) :
  exists h t,
    split_ws s = h :: t /\
    (h = "" <-> s = "" \/ starts_space s = true) /\
    ("" ∈ t <-> ends_space s = true).
Proof.
  induction s as [|c s (h & t & Hs & Hh & Ht)].
  - exists "", []. split; [done|]. split; [tauto|].
    split; [by intros ?%not_elem_of_nil | done].
  - simpl. rewrite Hs. destruct (is_space c) eqn:Hc.
    + destruct s as [|c' s].
      * injection Hs as <- <-. exists "", [""]. split; [done|].
        split; [tauto|]. split; [done | intros _; apply list_elem_of_here].
      * destruct (is_space c') eqn:Hc'.
        -- exists h, t. split; [done|]. split; [|exact Ht].
           split; [tauto|]. intros _. apply Hh. right. exact Hc'.
        -- exists "", (h :: t). split; [done|]. split; [tauto|].
           rewrite elem_of_cons, <- Ht. split; [|tauto].
           intros [Heq|?]; [|done]. symmetry in Heq.
           apply Hh in Heq as [?|Heq]; [done|]. simpl in Heq. congruence.
    + exists (String c h), t. split; [done|]. split.
      * split; [done|]. intros [?|?]; congruence.
      * rewrite Ht. destruct s as [|c' s]; done.
Qed.

Lemma split_ws_no_empty (s : string) :
  s <> "" -> starts_space s = false -> ends_space s = false ->
  "" ∉ split_ws s.
Proof.
  intros Hne Hstart Hend.
  destruct (split_ws_shape s) as (h & t & -> & Hh & Ht).
  intros [Heq|Hin]%elem_of_cons.
  - symmetry in Heq. apply Hh in Heq as [?|?]; congruence.
  - apply Ht in Hin. congruence.
Qed.

End TrimFacts.

(** X3: the search box starts no search for an input that is blank (empty
    or white space only).  Otherwise it starts one search, for the trimmed
    input, and splitting that query into words never leaves an empty
    piece: every piece counted by the scoring is a word of the query. *)
Theorem search_box_trims (value : string) (sources : list string)
        (st : CosmosVisualizer.State) :
  (trim value = "" -> UIController.performSearch value sources st = st) /\
  (trim value <> "" ->
   UIController.performSearch value sources st
   = CosmosVisualizer.performSearch (trim value) sources st /\
   ("" ∉ split_ws (toLowerCase (trim value))) /\
   words_of (toLowerCase (trim value)) = split_ws (toLowerCase (trim value))).
Proof.
  unfold UIController.performSearch. split.
  - intros ->. done.
  - intros Hne. rewrite decide_False by done. split; [done|].
    assert ("" ∉ split_ws (toLowerCase (trim value))) as Hno.
    { apply split_ws_no_empty.
      - by rewrite toLowerCase_empty.
      - rewrite starts_space_lower. unfold trim.
        apply starts_space_trim_end, starts_space_trim_start.
      - rewrite ends_space_lower. apply ends_space_trim_end. }
    split; [done|]. unfold words_of.
    induction (split_ws (toLowerCase (trim value))) as [|w ws IH]; [done|].
    apply not_elem_of_cons in Hno as [Hw Hws].
    rewrite filter_cons, decide_True by done. by rewrite IH.
Qed.

Lemma search_box_trims_witness :
  UIController.performSearch "   " ["web"] CosmosVisualizer.initial
  = CosmosVisualizer.initial /\
  split_ws (toLowerCase (trim "  Damaged  Helmet ")) = ["damaged"; "helmet"] /\
  ("" ∉ split_ws (toLowerCase (trim "  Damaged  Helmet "))).
Proof.
  split; [|split].
  - apply (proj1 (search_box_trims "   " ["web"] CosmosVisualizer.initial)).
    reflexivity.
  - reflexivity.
  - apply (proj2 (search_box_trims "  Damaged  Helmet " ["web"]
                    CosmosVisualizer.initial)).
    discriminate.
Defined.

(** ** Node sizes *)

(** X4: in the graph of a ranked result, a record that brought no [val] of
    its own is sized by its relevance, except that relevance 0 counts as
    absent and gives 1.  A record that matches nothing is therefore drawn
    larger (val 1, particle size 5) than every record that matches
    (val below 1, particle size below 5). *)
Theorem unmatched_records_are_largest (query : string) (result : Item) (index : nat) :
  item_val result = None ->
  let node := make_node index
                (with_relevance result (calculateRelevance query result)) in
  ((calculateRelevance query result == 0)%Q ->
   node_val node = 1%Q /\ (CosmosLayout.particle_size node == 5)%Q) /\
  (~ (calculateRelevance query result == 0)%Q ->
   node_val node = calculateRelevance query result /\
   (node_val node < 1)%Q /\ (CosmosLayout.particle_size node < 5)%Q).
Proof.
  intros Hval. simpl. unfold CosmosLayout.particle_size, make_node. simpl.
  rewrite Hval. simpl.
  pose proof (calculateRelevance_lt_1 query result) as Hlt.
  destruct (Qeq_bool (calculateRelevance query result) 0) eqn:Hz.
  - split; [|intros Hnz; apply Qeq_bool_iff in Hz; contradiction].
    intros _. split; [done|]. reflexivity.
  - split; [intros Hzero; apply Qeq_bool_iff in Hzero; congruence|].
    intros _. rewrite Hz. split; [done|]. split; [done|]. lra.
Qed.

Lemma unmatched_records_are_largest_witness :
  node_val (make_node 0 (with_relevance (record (Some "Lantern") None)
                           (calculateRelevance "helmet" (record (Some "Lantern") None))))
  = 1%Q /\
  (node_val (make_node 1 (with_relevance (record (Some "Damaged Helmet") None)
                            (calculateRelevance "helmet"
                               (record (Some "Damaged Helmet") None))))
   < 1)%Q.
Proof.
  split.
  - apply (proj1 (unmatched_records_are_largest "helmet"
                    (record (Some "Lantern") None) 0 eq_refl)).
    reflexivity.
  - apply (proj2 (unmatched_records_are_largest "helmet"
                    (record (Some "Damaged Helmet") None) 1 eq_refl)).
    discriminate.
Defined.

(** ** Shape of the synthesized links *)

Section ChainFacts.

Lemma length_chain (group : list GraphNode) :
  length (chain group) = (length group - 1)%nat.
Proof.
  induction group as [|a group IH]; [done|].
  destruct group as [|b group]; [done|].
  change (chain (a :: b :: group)) with (similarity_link a b :: chain (b :: group)).
  cbn [length] in *. rewrite IH. lia.
Qed.

Lemma elem_of_chain_typed (ty : string) (ns : list GraphNode) (l : GraphLink) :
  l ∈ chain (filter (fun node => node_type node = ty) ns) ->
  exists a b, a ∈ ns /\ b ∈ ns /\ node_type a = ty /\ node_type b = ty /\
              l = similarity_link a b.
Proof.
  intros (a & b & Ha & Hb & ->)%elem_of_chain.
  apply list_elem_of_filter in Ha as [? ?], Hb as [? ?]. eauto 10.
Qed.

Lemma sum_list_cons (x : nat) (l : list nat) :
  sum_list (x :: l) = (x + sum_list l)%nat.
Proof. reflexivity. Qed.

Lemma flat_map_cons {A B} (f : A -> list B) (x : A) (l : list A) :
  flat_map f (x :: l) = f x ++ flat_map f l.
Proof. reflexivity. Qed.

Lemma filter_type_split (ns : list GraphNode) (ty : string) (tys : list string) :
  ty ∉ tys ->
  length (filter (fun node => node_type node ∈ ty :: tys) ns)
  = (length (filter (fun node => node_type node = ty) ns)
     + length (filter (fun node => node_type node ∈ tys) ns))%nat.
Proof.
  intros Hty. induction ns as [|n ns IH]; [done|].
  rewrite !filter_cons.
  destruct (decide (node_type n = ty)) as [Heq|Hne].
  - rewrite decide_True by (rewrite Heq; apply list_elem_of_here).
    rewrite (decide_False (P := node_type n ∈ tys)) by (by rewrite Heq).
    cbn [length]. rewrite IH. lia.
  - destruct (decide (node_type n ∈ tys)) as [Hin|Hnin].
    + rewrite decide_True by (by apply list_elem_of_further).
      cbn [length]. rewrite IH. lia.
    + rewrite decide_False; [exact IH|].
      intros [?|?]%elem_of_cons; congruence.
Qed.

(** Each node falls in the group of exactly one of the listed types. *)
Lemma group_sizes (ns : list GraphNode) (tys : list string) :
  NoDup tys ->
  sum_list (map (fun ty => length (filter (fun node => node_type node = ty) ns)) tys)
  = length (filter (fun node => node_type node ∈ tys) ns).
Proof.
  induction 1 as [|ty tys Hty Hnd IH].
  - simpl. induction ns as [|n ns IHn]; [done|].
    rewrite filter_cons, decide_False by apply not_elem_of_nil. exact IHn.
  - rewrite map_cons, sum_list_cons, IH. symmetry. by apply filter_type_split.
Qed.

Lemma filter_own_types (ns : list GraphNode) (tys : list string) :
  (forall node, node ∈ ns -> node_type node ∈ tys) ->
  filter (fun node => node_type node ∈ tys) ns = ns.
Proof.
  induction ns as [|n ns IH]; intros Hall; [done|].
  rewrite filter_cons, decide_True by apply Hall, list_elem_of_here.
  f_equal. apply IH. intros node Hn. by apply Hall, list_elem_of_further.
Qed.

Lemma chains_count (ns : list GraphNode) (tys : list string) :
  (forall ty, ty ∈ tys -> ty ∈ map node_type ns) ->
  (length (flat_map (fun g : string * list GraphNode => chain g.2)
                    (map (fun ty => (ty, filter (fun node => node_type node = ty) ns))
                         tys))
   + length tys
   = sum_list (map (fun ty => length (filter (fun node => node_type node = ty) ns))
                   tys))%nat.
Proof.
  induction tys as [|ty tys IH]; intros Hin; [done|].
  rewrite !map_cons, sum_list_cons, flat_map_cons, length_app, length_chain.
  cbn [snd length].
  assert (0 < length (filter (fun node => node_type node = ty) ns))%nat.
  { destruct (filter _ ns) eqn:Hf; [|simpl; lia].
    specialize (Hin ty (list_elem_of_here _ _)).
    apply list_elem_of_fmap in Hin as (n & Hn & Hnin).
    assert (n ∈ filter (fun node => node_type node = ty) ns) as Hnf
        by (by apply list_elem_of_filter).
    rewrite Hf in Hnf. by apply not_elem_of_nil in Hnf. }
  specialize (IH (fun ty' H' => Hin ty' (list_elem_of_further _ _ _ H'))).
  lia.
Qed.

Lemma fallback_count (ns : list GraphNode) :
  (length (flat_map (fun g => chain g.2) (groups_by_type ns))
   + length (first_occurrences (map node_type ns)) = length ns)%nat.
Proof.
  unfold groups_by_type. rewrite chains_count.
  - rewrite group_sizes by apply NoDup_first_occurrences.
    rewrite filter_own_types; [done|].
    intros node Hn. apply elem_of_first_occurrences, list_elem_of_fmap. eauto.
  - intros ty. apply elem_of_first_occurrences.
Qed.

End ChainFacts.

(** X5: the links synthesized when the relationships leave none join only
    nodes of one type, and there are as many of them as nodes less the
    number of distinct types: one chain per type.  Nodes of different
    types are never linked, so a result of k types falls into k separate
    parts. *)
Theorem fallback_links_stay_within_type (items : list Item) :
  explicit_links items = [] ->
  (2 <= length items)%nat ->
  let g := convertToGraphData items in
  Forall (fun l => exists a b,
            a ∈ nodes g /\ b ∈ nodes g /\ node_type a = node_type b /\
            link_source l = Some (node_id a) /\ link_target l = node_id b /\
            link_value l = 1 # 2)
         (links g) /\
  (length (links g) + length (first_occurrences (map node_type (nodes g)))
   = length (nodes g))%nat.
Proof.
  intros Hnone Hlen. simpl. rewrite nodes_convert, links_convert, Hnone.
  change (length (@nil GraphLink) =? 0)%nat with true.
  rewrite (proj2 (Nat.ltb_lt 1 (length items))) by lia. cbn [andb].
  split; [|apply fallback_count].
  apply Forall_forall. intros l Hl%list_elem_of_In%in_flat_map.
  destruct Hl as ([ty group] & Hg%list_elem_of_In & Hl%list_elem_of_In).
  unfold groups_by_type in Hg.
  apply list_elem_of_fmap in Hg as (ty' & [= -> ->] & _).
  apply elem_of_chain_typed in Hl as (a & b & ? & ? & ? & ? & ->).
  exists a, b. repeat split; try done. congruence.
Qed.

Lemma fallback_links_stay_within_type_witness :
  let items := [entry (Some "a") None (Some "web") None;
                entry (Some "b") None (Some "icosa") None;
                entry (Some "c") None (Some "web") None] in
  (length (links (convertToGraphData items))
   + length (first_occurrences (map node_type (nodes (convertToGraphData items))))
   = length (nodes (convertToGraphData items)))%nat /\
  links (convertToGraphData items)
  = [{| link_source := Some "a"; link_target := "c"; link_value := 1 # 2 |}].
Proof.
  split; [|reflexivity].
  apply (fallback_links_stay_within_type
           [entry (Some "a") None (Some "web") None;
            entry (Some "b") None (Some "icosa") None;
            entry (Some "c") None (Some "web") None]);
    [reflexivity | vm_compute; lia].
Defined.

(** ** The providers *)

Section ProviderFacts.

Lemma append_assoc (a b c : string) : (a +:+ b) +:+ c = a +:+ (b +:+ c).
Proof.
  induction a as [|x a IH]; [done|].
  rewrite !append_cons. by rewrite IH.
Qed.

Lemma toLowerCase_app (a b : string) :
  toLowerCase (a +:+ b) = toLowerCase a +:+ toLowerCase b.
Proof.
  induction a as [|x a IH]; [done|].
  rewrite append_cons. simpl. by rewrite IH, append_cons.
Qed.

Lemma includes_between (pre p post : string) :
  includes (pre +:+ p +:+ post) p = true.
Proof. apply includes_spec. by exists pre, post. Qed.

Lemma includes_app_l (a b p : string) :
  includes a p = true -> includes (a +:+ b) p = true.
Proof.
  intros (pre & post & ->)%includes_spec. apply includes_spec.
  exists pre, (post +:+ b). by rewrite !append_assoc.
Qed.

Lemma or_else_str_empty (s : string) : or_else_str (Some s) "" = s.
Proof. unfold or_else_str. by destruct (decide (s = "")) as [->|]. Qed.

Lemma whole_query_half (query : string) (result : Item) :
  includes (candidate_text result) (toLowerCase query) = true ->
  (1 # 2 <= calculateRelevance query result)%Q.
Proof.
  intros Hin. unfold calculateRelevance. rewrite Hin.
  apply Q.min_glb; [|lra]. rewrite fold_score.
  pose proof (word_sum_nonneg (candidate_text result)
                (split_ws (toLowerCase query)) (split_ws (toLowerCase query))).
  lra.
Qed.

Lemma elem_of_imap {A B} (f : nat -> A -> B) (l : list A) (y : B) :
  y ∈ imap f l <-> exists i x, l !! i = Some x /\ y = f i x.
Proof.
  rewrite list_elem_of_lookup. split.
  - intros (i & Hi). rewrite list_lookup_imap in Hi.
    destruct (l !! i) as [x|] eqn:Hx; [|done]. injection Hi as <-. eauto.
  - intros (i & x & Hx & ->). exists i. by rewrite list_lookup_imap, Hx.
Qed.

Lemma NoDup_numbered (prefix : string) (n : nat) :
  NoDup (map (fun i => Some (prefix +:+ pretty i)) (seq 0 n)).
Proof.
  apply NoDup_fmap_2; [|apply NoDup_seq].
  intros i j [= Heq]. apply (inj pretty).
  induction prefix as [|c prefix IH]; [done|].
  rewrite !append_cons in Heq. injection Heq as Heq. by apply IH.
Qed.

Lemma imap_numbered {A B} (f : nat -> B) (l : list A) :
  imap (fun i _ => f i) l = map f (seq 0 (length l)).
Proof.
  apply list_eq. intros i.
  rewrite list_lookup_imap. change (map f ?k) with (f <$> k).
  rewrite list_lookup_fmap.
  destruct (l !! i) as [x|] eqn:Hx; simpl.
  - apply lookup_lt_Some in Hx. by rewrite lookup_seq_lt.
  - apply lookup_ge_None in Hx. by rewrite lookup_seq_ge.
Qed.

End ProviderFacts.

(** X6: [IcosaProvider] never rejects.  It resolves with at most five
    records, numbered icosa-0, icosa-1, ... without gap or repetition, and
    every record it returns scores at least 0.5 for the query it was
    returned for: its name contains the query, or the query is "all",
    which the word "Gallery" of the description contains. *)
Theorem icosa_hits_match (query : string) :
  IcosaProvider query = Fulfilled (ArrayOf (results_of IcosaProvider query)) /\
  (length (results_of IcosaProvider query) <= 5)%nat /\
  map item_id (results_of IcosaProvider query)
  = map (fun i => Some ("icosa-" +:+ pretty i))
        (seq 0 (length (results_of IcosaProvider query))) /\
  NoDup (map item_id (results_of IcosaProvider query)) /\
  Forall (fun result => 1 # 2 <= calculateRelevance query result)%Q
         (results_of IcosaProvider query).
Proof.
  unfold results_of, IcosaProvider.
  set (filtered := List.filter _ sampleModels).
  assert (map item_id
            (imap (fun i name =>
                     {| item_id := Some ("icosa-" +:+ pretty i);
                        item_name := Some name; item_title := None;
                        item_description := Some "3D model from Poly Gallery";
                        item_source := Some "icosa"; item_type := None;
                        item_val := None; item_relevance := None;
                        item_relationships := None |})
                  (take 5 filtered))
          = map (fun i => Some ("icosa-" +:+ pretty i))
                (seq 0 (length (take 5 filtered)))) as Hids.
  { change (map item_id ?l) with (item_id <$> l).
    rewrite fmap_imap.
    rewrite <- (imap_numbered (fun i => Some ("icosa-" +:+ pretty i))).
    by apply imap_ext. }
  split; [done|]. split; [rewrite length_imap, length_take; lia|].
  split; [by rewrite Hids, length_imap|].
  split; [rewrite Hids; apply NoDup_numbered|].
  apply Forall_forall. intros result (i & name & Hname & ->)%elem_of_imap.
  apply whole_query_half. unfold candidate_text.
  cbn [item_name item_description].
  rewrite !or_else_str_empty, !toLowerCase_app.
  apply list_elem_of_lookup_2, elem_of_take in Hname as (j & Hname & _).
  apply list_elem_of_lookup_2, list_elem_of_In, filter_In in Hname as [Hin Hok].
  apply orb_true_iff in Hok as [Hok|Hall].
  - by apply includes_app_l.
  - apply bool_decide_eq_true in Hall. rewrite Hall.
    simpl in Hin.
    repeat (destruct Hin as [<-|Hin]; [reflexivity|]). done.
Qed.

(** X7: the mock Objaverse provider and the Web provider build their
    records around the query: for every query the first resolves with
    exactly three records and the second with exactly one, and each of
    the four scores at least 0.5 for that query. *)
Theorem echo_providers_always_match (query : string) :
  ObjaverseProvider query = Fulfilled (ArrayOf (results_of ObjaverseProvider query)) /\
  WebProvider query = Fulfilled (ArrayOf (results_of WebProvider query)) /\
  length (results_of ObjaverseProvider query) = 3%nat /\
  length (results_of WebProvider query) = 1%nat /\
  Forall (fun result => 1 # 2 <= calculateRelevance query result)%Q
         (results_of ObjaverseProvider query ++ results_of WebProvider query).
Proof.
  split; [done|]. split; [done|]. split; [done|]. split; [done|].
  unfold results_of, ObjaverseProvider, WebProvider. simpl.
  repeat (apply Forall_cons; split); try by apply Forall_nil.
  all: apply whole_query_half; unfold candidate_text;
    cbn [item_name item_description];
    rewrite !or_else_str_empty, !toLowerCase_app.
  1-3: rewrite !append_assoc; apply (includes_between "").
  rewrite !append_assoc.
  match goal with
  | |- includes (?a +:+ ?b +:+ toLowerCase query +:+ ?c) _ = true =>
      rewrite <- (append_assoc a b); apply includes_between
  end.
Qed.

(** ** Relationships of the GitHub provider *)

Section RelationshipFacts.

Lemma elem_of_relationships_of (rels : list Edge) (id : option string)
      (r : Relationship) :
  r ∈ relationships_of rels id <->
  exists e, e ∈ rels /\
            (Some (edge_source e) = id \/ Some (edge_target e) = id) /\
            r = {| rel_target := if decide (Some (edge_source e) = id)
                                 then edge_target e else edge_source e;
                   rel_strength := Some (edge_strength e) |}.
Proof.
  unfold relationships_of. change (map ?f ?l) with (f <$> l).
  rewrite list_elem_of_fmap. split.
  - intros (e & -> & He%list_elem_of_In%filter_In). destruct He as [He Hok].
    exists e. split; [by apply list_elem_of_In|]. split; [|done].
    apply orb_true_iff in Hok as [H|H]; apply bool_decide_eq_true in H; auto.
  - intros (e & He & Hok & ->). exists e. split; [done|].
    apply list_elem_of_In, filter_In. split; [by apply list_elem_of_In|].
    apply orb_true_iff.
    destruct Hok as [H|H]; [left|right]; by apply bool_decide_eq_true.
Qed.

(** Seen from either end, a relationship looks the same. *)
Lemma relationships_of_symmetric (rels : list Edge) (a b : string) (s : option Q) :
  {| rel_target := b; rel_strength := s |} ∈ relationships_of rels (Some a) ->
  {| rel_target := a; rel_strength := s |} ∈ relationships_of rels (Some b).
Proof.
  rewrite !elem_of_relationships_of.
  intros (e & He & Hok & Heq). exists e. split; [done|].
  destruct (decide (Some (edge_source e) = Some a)) as [[= Ha]|Hna].
  - injection Heq as -> ->. split; [by right|].
    destruct (decide (Some (edge_source e) = Some (edge_target e))) as [[= Hst]|];
      [|by rewrite Ha].
    by rewrite <- Hst, Ha.
  - injection Heq as -> ->. destruct Hok as [?|[= Ht]]; [done|].
    split; [by left|]. rewrite decide_True by done. by rewrite Ht.
Qed.

Lemma relationships_of_closed (rels : list Edge) (ids : list (option string))
      (id : option string) (r : Relationship) :
  Forall (fun e => Some (edge_source e) ∈ ids /\ Some (edge_target e) ∈ ids) rels ->
  r ∈ relationships_of rels id ->
  Some (rel_target r) ∈ ids.
Proof.
  rewrite Forall_forall. intros Hrels (e & He & _ & ->)%elem_of_relationships_of.
  destruct (Hrels _ He) as [Hs Ht]. simpl. by destruct (decide _).
Qed.

Lemma attach_id (rels : list Edge) (nodes : list Item) :
  map item_id (map (attach rels) nodes) = map item_id nodes.
Proof. rewrite map_map. by apply map_ext. Qed.

Lemma repository_ids_S (n : nat) :
  repository_ids (S n)
  = repository_ids n ++ [Some ("github-repo-" +:+ pretty n);
                         Some ("github-user-" +:+ pretty n)].
Proof.
  unfold repository_ids. by rewrite seq_S, flat_map_app.
Qed.

Lemma elem_of_repository_ids (n : nat) (id : option string) :
  id ∈ repository_ids n <->
  exists i, (i < n)%nat /\
            (id = Some ("github-repo-" +:+ pretty i) \/
             id = Some ("github-user-" +:+ pretty i)).
Proof.
  unfold repository_ids. rewrite list_elem_of_In, in_flat_map. split.
  - intros (i & Hi & Hid). apply in_seq in Hi. apply list_elem_of_In in Hid.
    exists i. split; [lia|].
    apply elem_of_cons in Hid as [->|Hid]; [by left|].
    apply list_elem_of_singleton in Hid as ->. by right.
  - intros (i & Hi & Hid). exists i. split; [apply in_seq; lia|].
    apply list_elem_of_In.
    destruct Hid as [-> | ->];
      [apply list_elem_of_here | apply list_elem_of_further, list_elem_of_here].
Qed.

Lemma length_repository_ids (n : nat) :
  length (repository_ids n) = (2 * n)%nat.
Proof.
  induction n as [|n IH]; [done|].
  rewrite repository_ids_S, length_app, IH. simpl. lia.
Qed.

Lemma prefixed_inj (prefix a b : string) : prefix +:+ a = prefix +:+ b -> a = b.
Proof.
  induction prefix as [|c prefix IH]; [done|].
  rewrite !append_cons. intros [= Heq]. by apply IH.
Qed.

Lemma NoDup_repository_ids (n : nat) : NoDup (repository_ids n).
Proof.
  induction n as [|n IH]; [constructor|].
  rewrite repository_ids_S. apply NoDup_app. split; [done|]. split.
  - intros id Hold Hnew. apply elem_of_repository_ids in Hold as (i & Hi & Hid).
    apply elem_of_cons in Hnew as [->|Hnew];
      [|apply list_elem_of_singleton in Hnew as ->];
      destruct Hid as [[= Heq]|[= Heq]];
      try (apply prefixed_inj, (inj pretty) in Heq; lia);
      discriminate Heq.
  - apply NoDup_cons. split; [|apply NoDup_singleton].
    intros [= Heq]%list_elem_of_singleton.
Qed.

End RelationshipFacts.

Section RepositoryFacts.

Variable log : Z -> Q.
Variable filtered : list GitHub.Repo.

Lemma add_repo_invariant (l : list GitHub.Repo) :
  exists nodes rels,
    fold_left (GitHub.add_repo log filtered) (imap pair l) ([], []) = (nodes, rels) /\
    map item_id nodes = repository_ids (length l) /\
    Forall (fun e => Some (edge_source e) ∈ repository_ids (length l) /\
                     Some (edge_target e) ∈ repository_ids (length l)) rels /\
    (forall i, (i < length l)%nat -> owner_edge i ∈ rels).
Proof.
  induction l as [|repo l (nodes & rels & Hfold & Hids & Hrels & Hown)] using rev_ind.
  - exists [], []. repeat split; [by apply Forall_nil | simpl; lia].
  - rewrite imap_app, fold_left_app, Hfold. cbn [imap fold_left].
    rewrite Nat.add_0_r, length_app. cbn [length]. rewrite Nat.add_1_r.
    set (n := length l) in *.
    assert (forall id, id ∈ repository_ids n -> id ∈ repository_ids (S n)) as Hmono.
    { intros id Hid. rewrite repository_ids_S. apply elem_of_app. by left. }
    assert (Some ("github-repo-" +:+ pretty n) ∈ repository_ids (S n)) as Hrepo.
    { apply elem_of_repository_ids. exists n. auto. }
    assert (Some ("github-user-" +:+ pretty n) ∈ repository_ids (S n)) as Huser.
    { apply elem_of_repository_ids. exists n. auto. }
    assert (Forall (fun e => Some (edge_source e) ∈ repository_ids (S n) /\
                             Some (edge_target e) ∈ repository_ids (S n))
                   (rels ++ [owner_edge n])) as Hrels'.
    { apply Forall_app. split.
      - eapply Forall_impl; [exact Hrels|]. intros e [? ?]. auto.
      - apply Forall_singleton. by split. }
    assert (forall i, (i < S n)%nat -> owner_edge i ∈ rels ++ [owner_edge n]) as Hown'.
    { intros i Hi. apply elem_of_app.
      destruct (decide (i = n)) as [->|]; [right; apply list_elem_of_here|].
      left. apply Hown. lia. }
    unfold GitHub.add_repo. fold (owner_edge n).
    destruct ((0 <? n)%nat && GitHub.shares_topic repo (filtered !! (n - 1)%nat))
      eqn:Htopic.
    + eexists _, _. split; [reflexivity|]. split; [|split].
      * rewrite map_app, Hids, repository_ids_S. done.
      * apply Forall_app. split; [done|]. apply Forall_singleton. split; [done|].
        apply andb_prop in Htopic as [Hpos%Nat.ltb_lt _]. simpl.
        apply elem_of_repository_ids. exists (n - 1)%nat. split; [lia|by left].
      * intros i Hi. apply elem_of_app. left. by apply Hown'.
    + eexists _, _. split; [reflexivity|]. split; [|split]; [|done..].
      rewrite map_app, Hids, repository_ids_S. done.
Qed.

Lemma repository_nodes_spec :
  exists nodes rels,
    GitHub.repository_nodes log filtered = map (attach rels) nodes /\
    map item_id nodes = repository_ids (length filtered) /\
    Forall (fun e => Some (edge_source e) ∈ repository_ids (length filtered) /\
                     Some (edge_target e) ∈ repository_ids (length filtered)) rels /\
    (forall i, (i < length filtered)%nat -> owner_edge i ∈ rels).
Proof.
  destruct (add_repo_invariant filtered) as (nodes & rels & Hfold & H).
  exists nodes, rels. split; [|done].
  unfold GitHub.repository_nodes. by rewrite Hfold.
Qed.

End RepositoryFacts.

Section ClosedRecords.

Lemma node_ids_of_items (items : list Item) :
  Forall (fun item => is_Some (item_id item)) items ->
  map Some (map node_id (imap make_node items)) = map item_id items.
Proof.
  intros Hids. rewrite map_map.
  change (map ?f ?l) with (f <$> l).
  rewrite fmap_imap, <- (imap_const item_id).
  apply imap_ext. intros i item Hitem. simpl.
  destruct (Forall_lookup_1 _ _ _ _ Hids Hitem) as [id Hid].
  by rewrite Hid.
Qed.

Lemma flat_map_ext_elem {A B} (f g : A -> list B) (l : list A) :
  (forall x, x ∈ l -> f x = g x) -> flat_map f l = flat_map g l.
Proof.
  induction l as [|x l IH]; intros Hfg; [done|]. simpl.
  rewrite (Hfg x) by apply list_elem_of_here.
  rewrite IH; [done|]. intros y Hy. by apply Hfg, list_elem_of_further.
Qed.

Lemma filter_all {A} (P : A -> Prop) `{forall x, Decision (P x)} (l : list A) :
  Forall P l -> filter P l = l.
Proof.
  induction 1 as [|x l Hx _ IH]; [done|].
  by rewrite filter_cons, decide_True, IH.
Qed.

(** When every relationship of every record points to a record of the
    sequence, and every record has an id, the second loop of
    [convertToGraphData] keeps them all. *)
Lemma explicit_links_closed (items : list Item) :
  Forall (fun item => is_Some (item_id item)) items ->
  (forall item r, item ∈ items -> r ∈ relationships_in item ->
                  Some (rel_target r) ∈ map item_id items) ->
  explicit_links items
  = flat_map (fun item => map (make_link item) (relationships_in item)) items.
Proof.
  intros Hids Hclosed. rewrite explicit_links_spec.
  apply flat_map_ext_elem. intros item Hitem.
  unfold links_of, relationships_in in *.
  specialize (Hclosed item).
  destruct (item_relationships item) as [rels|]; [|done]. simpl in *.
  f_equal. apply filter_all, Forall_forall. intros r Hr.
  apply index_nodes_has.
  specialize (Hclosed r Hitem Hr).
  rewrite <- node_ids_of_items in Hclosed by done.
  apply list_elem_of_fmap in Hclosed as (k & [= ->] & Hk). done.
Qed.

Lemma links_all_explicit (items : list Item) :
  (items <> [] -> explicit_links items <> []) ->
  links (convertToGraphData items) = explicit_links items.
Proof.
  intros Hne. rewrite links_convert.
  destruct (explicit_links items) eqn:He; [|done].
  destruct items; [done|]. by destruct Hne.
Qed.

End ClosedRecords.

(** X8: the repository nodes of the GitHub provider.  For every list of
    repositories that passed the filter there are two nodes per
    repository, with pairwise distinct ids; every relationship of a node
    points to a node of the result; a relationship is seen from both of
    its ends with the same strength; and the graph built from the result
    has exactly one link per relationship entry, none dropped and none
    synthesized. *)
Theorem github_relationships_closed_symmetric
        (log : Z -> Q) (filtered : list GitHub.Repo) :
  let result := GitHub.repository_nodes log filtered in
  map item_id result = repository_ids (length filtered) /\
  length result = (2 * length filtered)%nat /\
  NoDup (map item_id result) /\
  (forall node r,
     node ∈ result -> r ∈ relationships_in node ->
     Some (rel_target r) ∈ map item_id result) /\
  (forall a b ida idb s,
     a ∈ result -> b ∈ result ->
     item_id a = Some ida -> item_id b = Some idb ->
     {| rel_target := idb; rel_strength := s |} ∈ relationships_in a ->
     {| rel_target := ida; rel_strength := s |} ∈ relationships_in b) /\
  links (convertToGraphData result)
  = flat_map (fun node => map (make_link node) (relationships_in node)) result.
Proof.
  simpl.
  destruct (repository_nodes_spec log filtered)
    as (nodes & rels & -> & Hids & Hrels & Hown).
  assert (map item_id (map (attach rels) nodes) = repository_ids (length filtered))
    as Hids' by (by rewrite attach_id).
  assert (forall node r,
            node ∈ map (attach rels) nodes -> r ∈ relationships_in node ->
            Some (rel_target r) ∈ map item_id (map (attach rels) nodes))
    as Hclosed.
  { intros node r (n & -> & _)%list_elem_of_fmap Hr. rewrite Hids'.
    unfold relationships_in in Hr. simpl in Hr.
    eapply relationships_of_closed; [exact Hrels | exact Hr]. }
  assert (Forall (fun item => is_Some (item_id item)) (map (attach rels) nodes))
    as Hsome.
  { apply Forall_forall. intros node Hnode.
    assert (item_id node ∈ repository_ids (length filtered)) as Hid.
    { rewrite <- Hids'. apply list_elem_of_fmap. eauto. }
    apply elem_of_repository_ids in Hid as (i & _ & [-> | ->]); eauto. }
  split; [done|]. split.
  { by rewrite <- (length_map item_id), Hids', length_repository_ids. }
  split; [rewrite Hids'; apply NoDup_repository_ids|].
  split; [exact Hclosed|]. split.
  - intros a b ida idb s (na & -> & _)%list_elem_of_fmap
           (nb & -> & _)%list_elem_of_fmap Ha Hb Hr.
    unfold relationships_in in *. simpl in *. rewrite Ha in Hr. rewrite Hb.
    by apply relationships_of_symmetric.
  - rewrite links_all_explicit; [by apply explicit_links_closed|].
    intros Hne. rewrite explicit_links_closed by done.
    destruct (map (attach rels) nodes) as [|node rest] eqn:Hres; [done|].
    assert (item_id node ∈ repository_ids (length filtered)) as Hid.
    { rewrite <- Hids'. apply list_elem_of_here. }
    apply elem_of_repository_ids in Hid as (i & Hi & Hid).
    assert (node ∈ map (attach rels) nodes) as Hnode
        by (rewrite Hres; apply list_elem_of_here).
    apply list_elem_of_fmap in Hnode as (n & -> & _).
    assert (exists r, r ∈ relationships_in (attach rels n)) as [r Hr].
    { unfold relationships_in. simpl.
      eexists. apply elem_of_relationships_of. exists (owner_edge i).
      split; [by apply Hown|]. split; [|reflexivity].
      simpl in Hid. destruct Hid as [-> | ->]; [by right | by left]. }
    simpl. destruct (relationships_in (attach rels n)) as [|r' rs];
      [by apply not_elem_of_nil in Hr | done].
Qed.

Lemma github_relationships_closed_symmetric_witness :
  let result := GitHub.repository_nodes (fun _ => 0%Q)
                  (List.filter (GitHub.repo_matches "webgl") GitHub.real3DRepos) in
  Some "github-repo-0" ∈ map item_id result /\
  length (links (convertToGraphData result)) = 6%nat.
Proof.
  split; [|reflexivity].
  eapply (proj1 (proj2 (proj2 (proj2
            (github_relationships_closed_symmetric (fun _ => 0%Q)
               (List.filter (GitHub.repo_matches "webgl") GitHub.real3DRepos)))))
          _ {| rel_target := "github-repo-0"; rel_strength := Some (1 # 2) |}).
  - apply (list_elem_of_lookup_2 _ 2%nat). reflexivity.
  - apply (list_elem_of_lookup_2 _ 1%nat). reflexivity.
Defined.

(** ** Events of the GitHub provider *)

Section EventFacts.

(** What [processGitHubEvents] keeps true of its [nodes] map. *)
Lemma set_new_keeps (node : Item) (nodes : list Item) (k : nat) :
  plain_github_node node ->
  NoDup (map item_id nodes) ->
  Forall plain_github_node nodes ->
  (length nodes <= k)%nat ->
  NoDup (map item_id (GitHub.set_new node nodes)) /\
  Forall plain_github_node (GitHub.set_new node nodes) /\
  (length (GitHub.set_new node nodes) <= S k)%nat.
Proof.
  intros Hnode Hnd Hrel Hlen. unfold GitHub.set_new.
  destruct (bool_decide (item_id node ∈ map item_id nodes)) eqn:Hin.
  - repeat split; [done..|lia].
  - apply bool_decide_eq_false in Hin. repeat split.
    + rewrite map_app. apply NoDup_app. split; [done|].
      split; [|apply NoDup_singleton].
      intros id Hid ->%list_elem_of_singleton. done.
    + apply Forall_app. split; [done|]. by apply Forall_singleton.
    + rewrite length_app. simpl. lia.
Qed.

Lemma add_event_keeps (events : list GitHub.GHEvent)
      (nodes : list Item) (rels : list (string * string)) (k : nat) :
  NoDup (map item_id nodes) ->
  Forall plain_github_node nodes ->
  (length nodes <= k)%nat ->
  let result := (fold_left GitHub.add_event events (nodes, rels)).1 in
  NoDup (map item_id result) /\
  Forall plain_github_node result /\
  (length result <= k + 2 * length events)%nat.
Proof.
  revert nodes rels k.
  induction events as [|event events IH]; intros nodes rels k Hnd Hrel Hlen.
  - simpl. repeat split; [done..|lia].
  - cbn [fold_left GitHub.add_event].
    match goal with
    | |- context [GitHub.set_new ?repo (GitHub.set_new ?actor nodes)] =>
        destruct (set_new_keeps actor nodes k (conj eq_refl (or_introl eq_refl))
                    Hnd Hrel Hlen)
          as (Hnd1 & Hrel1 & Hlen1);
        destruct (set_new_keeps repo _ (S k) (conj eq_refl (or_intror eq_refl))
                    Hnd1 Hrel1 Hlen1)
          as (Hnd2 & Hrel2 & Hlen2)
    end.
    pose proof (fun r => IH _ r (S (S k)) Hnd2 Hrel2 Hlen2) as IH'.
    cbn zeta in IH'.
    split; [eapply IH'|]. split; [eapply IH'|].
    etransitivity; [eapply IH'|]. cbn [length]. lia.
Qed.

End EventFacts.

Lemma fallback_links_typed (items : list Item) :
  explicit_links items = [] ->
  Forall (fun l => exists a b,
            a ∈ nodes (convertToGraphData items) /\
            b ∈ nodes (convertToGraphData items) /\
            node_type a = node_type b /\ l = similarity_link a b)
         (links (convertToGraphData items)).
Proof.
  intros Hnone. rewrite nodes_convert, links_convert, Hnone.
  destruct (_ && _); [|by apply Forall_nil].
  apply Forall_forall. intros l Hl%list_elem_of_In%in_flat_map.
  destruct Hl as ([ty group] & Hg%list_elem_of_In & Hl%list_elem_of_In).
  unfold groups_by_type in Hg.
  apply list_elem_of_fmap in Hg as (ty' & [= -> ->] & _).
  apply elem_of_chain_typed in Hl as (a & b & ? & ? & ? & ? & ->).
  exists a, b. repeat split; try done. congruence.
Qed.

Lemma explicit_links_none (items : list Item) :
  Forall (fun item => item_relationships item = None) items ->
  explicit_links items = [].
Proof.
  intros Hnone. rewrite explicit_links_spec.
  generalize (index_nodes (imap make_node items) ∅). intros m.
  induction Hnone as [|item items Hitem _ IH]; [done|].
  simpl. rewrite IH, app_nil_r. unfold links_of. by rewrite Hitem.
Qed.

(** X9: [processGitHubEvents] returns at most 100 nodes, with pairwise
    distinct ids, each a user or a repository.  The actor-repository
    relationships it collects are dropped: no node carries a relationship,
    so the graph built from the result has no link between a user and a
    repository; its only links are the chains that join users to users
    and repositories to repositories. *)
Theorem events_lose_relationships (events : list GitHub.GHEvent) (query : string) :
  let result := GitHub.processGitHubEvents events query in
  let g := convertToGraphData result in
  NoDup (map item_id result) /\
  (length result <= 100)%nat /\
  Forall plain_github_node result /\
  explicit_links result = [] /\
  Forall (fun l => exists a b,
            a ∈ nodes g /\ b ∈ nodes g /\ node_type a = node_type b /\
            (node_type a = "user" \/ node_type a = "repository") /\
            l = similarity_link a b)
         (links g).
Proof.
  simpl. unfold GitHub.processGitHubEvents.
  set (chosen := take 50 (List.filter (GitHub.event_matches query) events)).
  destruct (add_event_keeps chosen [] [] 0 (NoDup_nil_2 (A := option string))
              (Forall_nil_2 _) (le_n 0)) as (Hnd & Hplain & Hlen).
  cbn zeta in *.
  set (result := (fold_left GitHub.add_event chosen ([], [])).1) in *.
  assert (explicit_links result = []) as Hnone.
  { apply explicit_links_none. eapply Forall_impl; [exact Hplain|].
    by intros n [? _]. }
  split; [done|]. split.
  { etransitivity; [exact Hlen|]. unfold chosen. rewrite length_take. lia. }
  split; [done|]. split; [done|].
  eapply Forall_impl; [exact (fallback_links_typed result Hnone)|].
  intros l (a & b & Ha & Hb & Hty & ->). exists a, b.
  repeat split; try done.
  rewrite nodes_convert in Ha. apply elem_of_imap in Ha as (i & item & Hitem & ->).
  apply list_elem_of_lookup_2 in Hitem.
  rewrite Forall_forall in Hplain. destruct (Hplain _ Hitem) as [_ Hkind].
  unfold make_node. simpl. destruct Hkind as [-> | ->]; auto.
Qed.

(** ** Stress test data *)

Section StressFacts.

Variable random : Random.
Hypothesis Hunit : in_unit random.

Lemma floor_index_lt (u : Q) (n : nat) :
  (0 <= u < 1)%Q -> (0 < n)%nat -> (floor_index u n < n)%nat.
Proof.
  intros [H0 H1] Hn. unfold floor_index.
  set (x := (u * inject_Z (Z.of_nat n))%Q).
  assert (0 < inject_Z (Z.of_nat n))%Q as Hpos.
  { change 0%Q with (inject_Z 0). rewrite <- Zlt_Qlt. lia. }
  assert (0 <= x)%Q as Hx0 by (unfold x; nra).
  assert (x < inject_Z (Z.of_nat n))%Q as Hx1 by (unfold x; nra).
  assert (0 <= Qfloor x)%Z as Hf0.
  { change 0%Z with (Qfloor (inject_Z 0)). by apply Qfloor_resp_le. }
  assert (Qfloor x < Z.of_nat n)%Z as Hf1.
  { rewrite Zlt_Qlt. eapply Qle_lt_trans; [apply Qfloor_le|exact Hx1]. }
  lia.
Qed.

Lemma fold_round_S (n : nat) (st : Loop) :
  fold_left (round random) (seq 0 (S n)) st
  = round random (fold_left (round random) (seq 0 n) st) n.
Proof. by rewrite seq_S, fold_left_app. Qed.

Lemma round_nodes (st : Loop) (i : nat) :
  exists node,
    loop_nodes (round random st i) = loop_nodes st ++ [node] /\
    item_id node = Some ("stress-" +:+ pretty i) /\
    stress_node node.
Proof.
  unfold round. eexists. split.
  { destruct (0 <? i)%nat; [destruct (Qle_bool _ _)|]; reflexivity. }
  split; [done|]. unfold stress_node. cbn [item_source item_description item_type].
  change (length sourceTypes) with 5%nat.
  pose proof (Nat.mod_upper_bound i 5 ltac:(lia)) as Hr.
  pose proof (Hunit (drawn st)) as Hu.
  assert (floor_index (random (drawn st)) 3 < 3)%nat as Hty
      by (apply floor_index_lt; [done|lia]).
  unfold generateDescription, getTypeForSource.
  destruct (i mod 5)%nat as [|[|[|[|[|r]]]]] eqn:Hmod; try (exfalso; lia);
    cbn [lookup list_lookup sourceTypes show_str];
    repeat match goal with
      | |- context [look ?t ?s ?f] =>
          let v := eval vm_compute in (look t s f) in
          change (look t s f) with v
      end;
    cbn [length]; change (Nat.modulo i 5) with (i mod 5)%nat; rewrite ?Hmod;
    destruct (floor_index (random (drawn st)) 3) as [|[|[|t]]] eqn:Ht;
    try (exfalso; lia);
    cbn;
    (eexists _, _, _; split; [|split; [reflexivity|split; [reflexivity|]]];
     [|eexists; split; [|reflexivity]]).
  all: try (apply (list_elem_of_lookup_2 _ 0%nat); reflexivity).
  all: try (apply (list_elem_of_lookup_2 _ 1%nat); reflexivity).
  all: try (apply (list_elem_of_lookup_2 _ 2%nat); reflexivity).
  all: try (apply (list_elem_of_lookup_2 _ 3%nat); reflexivity).
  all: try (apply (list_elem_of_lookup_2 _ 4%nat); reflexivity).
  all: apply (bool_decide_unpack _); vm_compute; exact I.
Qed.

Lemma round_links (st : Loop) (i : nat) :
  loop_links (round random st i) = loop_links st \/
  exists l,
    loop_links (round random st i) = loop_links st ++ [l] /\
    link_source l = Some ("stress-" +:+ pretty i) /\
    backward_link (S i) l.
Proof.
  unfold round. destruct (0 <? i)%nat eqn:Hi; [|by left].
  destruct (Qle_bool _ _); [by left|]. right.
  apply Nat.ltb_lt in Hi.
  eexists. split; [reflexivity|]. split; [reflexivity|].
  exists i, (floor_index (random (drawn st + 3 + 1)) i).
  split; [|split; [reflexivity|split; [reflexivity|apply Hunit]]].
  split; [|lia]. apply floor_index_lt; [apply Hunit|done].
Qed.

Lemma backward_link_mono (n m : nat) (l : GraphLink) :
  (n <= m)%nat -> backward_link n l -> backward_link m l.
Proof.
  intros Hnm (i & t & Hit & H). exists i, t. split; [lia|done].
Qed.

(** What holds of the loop after [n] rounds. *)
Lemma rounds_invariant (n : nat) :
  let st := fold_left (round random) (seq 0 n)
                      {| loop_nodes := []; loop_links := []; drawn := 0 |} in
  map item_id (loop_nodes st)
  = map (fun i => Some ("stress-" +:+ pretty i)) (seq 0 n) /\
  Forall stress_node (loop_nodes st) /\
  Forall (backward_link n) (loop_links st) /\
  NoDup (map link_source (loop_links st)).
Proof.
  induction n as [|n (Hids & Hnodes & Hlinks & Hnd)].
  - simpl. repeat split; [by apply Forall_nil..|constructor].
  - cbn zeta in *. rewrite fold_round_S.
    set (st := fold_left _ (seq 0 n) _) in *.
    destruct (round_nodes st n) as (node & -> & Hid & Hnode).
    split; [|split].
    + rewrite map_app, Hids, seq_S, map_app. simpl. by rewrite Hid.
    + apply Forall_app. split; [done|]. by apply Forall_singleton.
    + assert (Forall (backward_link (S n)) (loop_links st)) as Hlinks'.
      { eapply Forall_impl; [exact Hlinks|].
        intros l. apply backward_link_mono. lia. }
      destruct (round_links st n) as [-> | (l & -> & Hsrc & Hl)]; [done|].
      split; [apply Forall_app; split; [done|by apply Forall_singleton]|].
      rewrite map_app. apply NoDup_app. split; [done|].
      split; [|apply NoDup_singleton].
      intros src Hold ->%list_elem_of_singleton.
      apply list_elem_of_fmap in Hold as (l' & Hsrc' & Hl').
      rewrite Forall_forall in Hlinks.
      destruct (Hlinks _ Hl') as (i & t & Hit & Hi & _).
      rewrite Hsrc in Hsrc'. rewrite Hi in Hsrc'.
      injection Hsrc' as Heq. apply prefixed_inj, (inj pretty) in Heq. lia.
Qed.

End StressFacts.

(** X10: for every count and every stream of random values in [0,1),
    [generateMassiveDataset] returns [count] nodes with the ids stress-0,
    stress-1, ... in order, all distinct, and every link goes from a node
    to a node with a smaller index, with a strength in [0,1): no link
    dangles or loops back on its node, and no node is the source of two
    links, so the links form a forest. *)
Theorem stress_links_point_backward (random : Random) (count : nat) :
  in_unit random ->
  let d := generateMassiveDataset random count in
  map item_id (dataset_nodes d)
  = map (fun i => Some ("stress-" +:+ pretty i)) (seq 0 count) /\
  length (dataset_nodes d) = count /\
  NoDup (map item_id (dataset_nodes d)) /\
  Forall (backward_link count) (dataset_links d) /\
  NoDup (map link_source (dataset_links d)).
Proof.
  intros Hunit. simpl.
  destruct (rounds_invariant random Hunit count) as (Hids & _ & Hlinks & Hnd).
  cbn zeta in *. split; [done|]. split.
  { by rewrite <- (length_map item_id), Hids, length_map, length_seq. }
  split; [|done]. rewrite Hids. apply (NoDup_numbered "stress-").
Qed.

Lemma alternating_in_unit : in_unit alternating.
Proof.
  intros k. unfold alternating. destruct (Nat.even k); split; by vm_compute.
Defined.

Lemma stress_links_point_backward_witness :
  Forall (backward_link 4) (dataset_links (generateMassiveDataset alternating 4)) /\
  map link_target (dataset_links (generateMassiveDataset alternating 4))
  = ["stress-0"; "stress-1"; "stress-1"].
Proof.
  split; [|reflexivity].
  apply (stress_links_point_backward alternating 4 alternating_in_unit).
Defined.

Lemma stress_kinds_functional (s d d' : string) (ts ts' : list string) :
  (s, d, ts) ∈ stress_kinds -> (s, d', ts') ∈ stress_kinds -> d = d'.
Proof.
  rewrite !list_elem_of_In. unfold stress_kinds. simpl.
  intuition congruence.
Qed.

(** X11: in the stress data the description of a node is decided by its
    source alone, because both are picked with the index modulo 5: all
    nodes of one source share one description (five of the twenty-five
    templates are ever used), and the type of a node is one of the three
    types of its source. *)
Theorem stress_description_follows_source (random : Random) (count : nat) :
  in_unit random ->
  let d := generateMassiveDataset random count in
  Forall stress_node (dataset_nodes d) /\
  (forall a b,
     a ∈ dataset_nodes d -> b ∈ dataset_nodes d ->
     item_source a = item_source b ->
     item_description a = item_description b).
Proof.
  intros Hunit. simpl.
  destruct (rounds_invariant random Hunit count) as (_ & Hnodes & _).
  cbn zeta in *. split; [done|].
  rewrite Forall_forall in Hnodes.
  intros a b Ha Hb Hsrc.
  destruct (Hnodes _ Ha) as (sa & da & tsa & Hka & Hsa & -> & _).
  destruct (Hnodes _ Hb) as (sb & db & tsb & Hkb & Hsb & -> & _).
  rewrite Hsa, Hsb in Hsrc. injection Hsrc as ->.
  f_equal. by eapply stress_kinds_functional.
Qed.

Lemma stress_description_follows_source_witness :
  let ns := dataset_nodes (generateMassiveDataset alternating 7) in
  item_description (nth 0 ns empty_item) = item_description (nth 5 ns empty_item).
Proof.
  apply (proj2 (stress_description_follows_source alternating 7
                  alternating_in_unit)).
  - apply (list_elem_of_lookup_2 _ 0%nat). reflexivity.
  - apply (list_elem_of_lookup_2 _ 5%nat). reflexivity.
  - reflexivity.
Defined.

(** ** The application: files, modes and the loading indicator *)

Section SplitFacts.





End SplitFacts.

Section AppFacts.
Import Visualizer.

Lemma step_keeps_file (dm : DataManager.t) (app : App) (ev : AppEvent) :
  reads_no_file ev = true ->
  lastGraphData (Visualizer.step dm app ev) = lastGraphData app.
Proof.
  destruct ev as [ev|fetched| |mode]; intros Hev; try done.
  - simpl. unfold layoutChanged. by destruct (lastGraphData app) eqn:?.
  - simpl. unfold switchMode.
    destruct (decide (mode = "graph")); [|by destruct (decide (mode = "metavido"))].
    simpl. by destruct (lastGraphData app) eqn:?.
Qed.

Lemma run_keeps_file (dm : DataManager.t) (evs : list AppEvent) (app : App) :
  forallb reads_no_file evs = true ->
  lastGraphData (Visualizer.run dm evs app) = lastGraphData app.
Proof.
  revert app. induction evs as [|ev evs IH]; intros app Hevs; [done|].
  simpl in Hevs. apply andb_prop in Hevs as [Hev Hevs].
  unfold Visualizer.run in *. simpl. rewrite IH by done.
  by apply step_keeps_file.
Qed.

End AppFacts.

(** X12: a search result is shown but never kept.  Over any events that
    read no file (searches issued and settled, layout changes, mode
    switches) [lastGraphData] stays what it was; so switching to the graph
    mode afterwards shows the graph of the last file, or nothing at all,
    whatever a search had put on the page, and so does choosing a layout
    when there is a last file. *)
Theorem search_result_not_kept (dm : DataManager.t)
        (evs : list Visualizer.AppEvent) (app : Visualizer.App) :
  forallb reads_no_file evs = true ->
  let app' := Visualizer.run dm evs app in
  Visualizer.lastGraphData app' = Visualizer.lastGraphData app /\
  displayed (Visualizer.page (Visualizer.switchMode "graph" app'))
  = Visualizer.lastGraphData app /\
  displayed (Visualizer.page (Visualizer.layoutChanged app'))
  = match Visualizer.lastGraphData app with
    | Some graphData => Some graphData
    | None => displayed (Visualizer.page app')
    end.
Proof.
  intros Hevs app'. pose proof (run_keeps_file dm evs app Hevs) as Hkeep.
  fold app' in Hkeep. split; [done|].
  unfold Visualizer.switchMode, Visualizer.layoutChanged. simpl.
  rewrite Hkeep. by destruct (Visualizer.lastGraphData app) eqn:?.
Qed.

Lemma search_result_not_kept_witness :
  let app' := Visualizer.run Providers.manager
                [Visualizer.Search (Issue "cat" ["web"]);
                 Visualizer.Search (Settle 0);
                 Visualizer.ModeSwitched "metavido"] Visualizer.start in
  displayed (Visualizer.page (Visualizer.switchMode "graph" app')) = None.
Proof.
  refine (proj1 (proj2 (search_result_not_kept Providers.manager
           [Visualizer.Search (Issue "cat" ["web"]);
            Visualizer.Search (Settle 0);
            Visualizer.ModeSwitched "metavido"] Visualizer.start _))).
  reflexivity.
Defined.





(** ** The lines of the cosmos layout *)

Section ConnectionFacts.
Import CosmosLayout.

Lemma node_indices_snoc (ns : list GraphNode) (n : GraphNode) :
  node_indices (ns ++ [n]) = <[node_id n := length ns]> (node_indices ns).
Proof.
  unfold node_indices. rewrite imap_app, fold_left_app. simpl.
  by rewrite Nat.add_0_r.
Qed.

Lemma latest_snoc_other (ns : list GraphNode) (n : GraphNode) (k : string) (i : nat) :
  node_id n <> k -> latest ns k i -> latest (ns ++ [n]) k i.
Proof.
  intros Hk [(node & Hi & Hid) Hlast]. split.
  - exists node. split; [|done]. by apply lookup_app_l_Some.
  - intros j node' Hj Hid'.
    destruct (decide (j < length ns)%nat) as [Hlt|Hge].
    + rewrite lookup_app_l in Hj by done. by eapply Hlast.
    + rewrite lookup_app_r in Hj by lia.
      destruct (j - length ns)%nat; simpl in Hj; [|done].
      injection Hj as <-. done.
Qed.

Lemma node_indices_lookup (ns : list GraphNode) (k : string) (i : nat) :
  node_indices ns !! k = Some i -> latest ns k i.
Proof.
  revert i. induction ns as [|n ns IH] using rev_ind; intros i; [done|].
  rewrite node_indices_snoc.
  destruct (decide (node_id n = k)) as [Hk|Hk].
  - rewrite Hk, lookup_insert_eq. intros [= <-]. split.
    + exists n. split; [|done]. by rewrite lookup_app_r, Nat.sub_diag.
    + intros j node Hj%lookup_lt_Some _. rewrite length_app in Hj. simpl in Hj. lia.
  - rewrite lookup_insert_ne by done. intros Hi. by apply latest_snoc_other, IH.
Qed.

Lemma node_indices_has (ns : list GraphNode) (k : string) :
  k ∈ map node_id ns -> is_Some (node_indices ns !! k).
Proof.
  induction ns as [|n ns IH] using rev_ind; [by intros ?%not_elem_of_nil|].
  rewrite map_app, node_indices_snoc. simpl.
  destruct (decide (node_id n = k)) as [Hk|Hk].
  - rewrite Hk, lookup_insert_eq. eauto.
  - rewrite lookup_insert_ne by done.
    intros [Hin|Hin%list_elem_of_singleton]%elem_of_app; [by apply IH|done].
Qed.

Lemma connections_from (nodeMap : gmap string nat) (ls : list GraphLink)
      (acc : list (nat * nat)) :
  fold_left
    (fun connections link =>
       match link_source link ≫= (nodeMap !!.), nodeMap !! link_target link with
       | Some sourceNode, Some targetNode =>
           connections ++ [(sourceNode, targetNode)]
       | _, _ => connections
       end) ls acc
  = acc ++ omap (line nodeMap) ls.
Proof.
  revert acc. induction ls as [|l ls IH]; intros acc; simpl.
  - by rewrite app_nil_r.
  - rewrite IH. unfold line at 2.
    destruct (link_source l ≫= _) as [s|]; [|done].
    destruct (nodeMap !! link_target l) as [t|]; [|done].
    by rewrite <- app_assoc.
Qed.

Lemma createConnections_spec (g : Graph) :
  createConnections g = omap (line (node_indices (nodes g))) (links g).
Proof. unfold createConnections. by rewrite connections_from. Qed.

Lemma omap_cons_line (nodeMap : gmap string nat) (l : GraphLink)
      (ls : list GraphLink) :
  omap (line nodeMap) (l :: ls)
  = match line nodeMap l with
    | Some c => c :: omap (line nodeMap) ls
    | None => omap (line nodeMap) ls
    end.
Proof. reflexivity. Qed.

Lemma lines_of_closed (ns : list GraphNode) (ls : list GraphLink) :
  Forall (fun l => link_target l ∈ map node_id ns /\
                   forall s, link_source l = Some s -> s ∈ map node_id ns) ls ->
  Forall2 (line_of ns) (filter (fun l => is_Some (link_source l)) ls)
          (omap (line (node_indices ns)) ls).
Proof.
  induction 1 as [|l ls [Ht Hs] _ IH]; [by apply Forall2_nil|].
  rewrite filter_cons, omap_cons_line.
  destruct (link_source l) as [s|] eqn:Hsrc.
  - destruct (node_indices_has ns s (Hs s eq_refl)) as [i Hi].
    destruct (node_indices_has ns _ Ht) as [j Hj].
    assert (line (node_indices ns) l = Some (i, j)) as ->.
    { unfold line. rewrite Hsrc. simpl. by rewrite Hi, Hj. }
    rewrite decide_True by eauto.
    constructor; [|done]. split.
    + exists s. split; [done|]. by apply node_indices_lookup.
    + by apply node_indices_lookup.
  - assert (line (node_indices ns) l = None) as ->.
    { unfold line. by rewrite Hsrc. }
    rewrite decide_False; [done|]. by intros [? ?].
Qed.

Lemma link_sources_built (items : list Item) (l : GraphLink) (s : string) :
  l ∈ links (convertToGraphData items) -> link_source l = Some s ->
  s ∈ map node_id (nodes (convertToGraphData items)).
Proof.
  rewrite nodes_convert.
  intros [(a & b & Ha & _ & ->)|Hl]%elem_of_links; simpl.
  - intros [= <-]. apply list_elem_of_fmap. eauto.
  - destruct Hl as (item & rel & rels & Hi & _ & _ & _ & ->). simpl.
    intros Hid. destruct (item_node _ _ Hi) as [i Hn].
    apply list_elem_of_fmap. exists (make_node i item). split; [|done].
    by rewrite make_node_id, Hid.
Qed.

End ConnectionFacts.

(** X15: of the links that [convertToGraphData] builds, the cosmos layout
    draws exactly those whose source is defined, in order, each as a line
    between the last node with the source's id and the last node with the
    target's id.  A link built from a relationship of a record without id
    has an undefined source and gets no line; when every record has an id
    every link gets one. *)
Theorem lines_need_source_id (items : list Item) :
  let g := convertToGraphData items in
  Forall2 (line_of (nodes g))
          (filter (fun l => is_Some (link_source l)) (links g))
          (CosmosLayout.createConnections g) /\
  (Forall (fun item => is_Some (item_id item)) items ->
   length (CosmosLayout.createConnections g) = length (links g)).
Proof.
  intros g.
  assert (Forall2 (line_of (nodes g))
            (filter (fun l => is_Some (link_source l)) (links g))
            (CosmosLayout.createConnections g)) as Hlines.
  { rewrite createConnections_spec. apply lines_of_closed, Forall_forall.
    intros l Hl. split.
    - destruct (link_endpoints_with_ids items) as [Ht _].
      cbn zeta in Ht. rewrite Forall_forall in Ht. by apply Ht.
    - intros s. by apply link_sources_built. }
  split; [done|]. intros Hids.
  apply Forall2_length in Hlines. rewrite <- Hlines. f_equal.
  apply filter_all, Forall_forall. intros l Hl.
  destruct (link_endpoints_with_ids items) as [_ Hs].
  specialize (Hs Hids). cbn zeta in Hs. rewrite Forall_forall in Hs.
  destruct (Hs l Hl) as (node & _ & ->). eauto.
Qed.

Lemma lines_need_source_id_witness :
  let g := convertToGraphData
             [entry (Some "a") None None
                    (Some [{| rel_target := "b"; rel_strength := None |}]);
              entry (Some "b") None None None] in
  length (CosmosLayout.createConnections g) = length (links g).
Proof.
  refine (proj2 (lines_need_source_id _) _).
  repeat constructor; simpl; eauto.
Defined.

(** ** The Objaverse subset *)

Section SubsetFacts.
Import StressTestData.

Lemma link_rounds_bound (n : nat) :
  (link_rounds n <= 1000 /\ 1000 * link_rounds n < n + 1000)%nat.
Proof.
  unfold link_rounds.
  set (b := Qmin (inject_Z (Z.of_nat n) * (1 # 1000)) 1000).
  pose proof (Qceiling_lt b) as Hlt.
  assert (b <= 1000)%Q as H1 by apply Q.le_min_r.
  assert (b <= inject_Z (Z.of_nat n) * (1 # 1000))%Q as H2 by apply Q.le_min_l.
  assert (Qceiling b - 1 < 1000)%Z as Hc1.
  { rewrite Zlt_Qlt. eapply Qlt_le_trans; [exact Hlt|exact H1]. }
  assert (inject_Z (Qceiling b - 1) * 1000 < inject_Z (Z.of_nat n))%Q as Hc2.
  { assert (inject_Z (Qceiling b - 1) < inject_Z (Z.of_nat n) * (1 # 1000))%Q
      by (eapply Qlt_le_trans; [exact Hlt|exact H2]).
    lra. }
  change 1000%Q with (inject_Z 1000) in Hc2.
  rewrite <- inject_Z_mult, <- Zlt_Qlt in Hc2. lia.
Qed.

Lemma link_rounds_0 : link_rounds 0 = 0%nat.
Proof. reflexivity. Qed.

Lemma NoDup_prefixed (prefix : string) (n : nat) :
  NoDup (map (fun i => prefix +:+ pretty i) (seq 0 n)).
Proof.
  apply NoDup_fmap_2; [|apply NoDup_seq].
  intros i j Heq. apply (inj pretty).
  induction prefix as [|c prefix IH]; [done|].
  rewrite !append_cons in Heq. injection Heq as Heq. by apply IH.
Qed.

Variable random : Random.
Hypothesis Hunit : in_unit random.
Variable subset : list IndexEntry.

Lemma real_nodes_ids :
  map model_id (imap (fun i item => real_node (random i) i item) subset)
  = map (fun i => "objaverse-real-" +:+ pretty i) (seq 0 (length subset)).
Proof.
  change (map ?f ?l) with (f <$> l). rewrite fmap_imap.
  apply (imap_numbered (fun i => "objaverse-real-" +:+ pretty i)).
Qed.

Lemma real_nodes_lookup (s : nat) :
  (s < length subset)%nat ->
  exists a, imap (fun i item => real_node (random i) i item) subset !! s = Some a /\
            model_id a = "objaverse-real-" +:+ pretty s.
Proof.
  intros [item Hitem]%lookup_lt_is_Some.
  exists (real_node (random s) s item). by rewrite list_lookup_imap, Hitem.
Qed.

Lemma link_rounds_proper (rounds : list nat) (links : list GraphLink) (k : nat) :
  let nodes := imap (fun i item => real_node (random i) i item) subset in
  (rounds <> [] -> 0 < length subset)%nat ->
  Forall (proper_link (length nodes)) links ->
  exists links' k',
    fold_left (link_round random nodes) rounds (Some links, k) = (Some links', k') /\
    Forall (proper_link (length nodes)) links' /\
    (length links' <= length links + length rounds)%nat.
Proof.
  intros nodes. revert links k.
  induction rounds as [|i rounds IH]; intros links k Hpos Hlinks.
  - exists links, k. simpl. split; [done|]. split; [done|lia].
  - assert (0 < length subset)%nat as Hn by (by apply Hpos).
    assert (length nodes = length subset) as Hlen by apply length_imap.
    cbn [fold_left]. unfold link_round at 2.
    set (s := floor_index (random k) (length nodes)).
    set (t := floor_index (random (k + 1)) (length nodes)).
    assert (s < length subset)%nat as Hs
        by (unfold s; rewrite Hlen; by apply floor_index_lt).
    assert (t < length subset)%nat as Ht
        by (unfold t; rewrite Hlen; by apply floor_index_lt).
    destruct (decide (s <> t)) as [Hst|_].
    + destruct (real_nodes_lookup s Hs) as (a & Ha & Hida).
      destruct (real_nodes_lookup t Ht) as (b & Hb & Hidb).
      fold nodes in Ha, Hb. rewrite Ha, Hb.
      destruct (IH (links ++ [{| link_source := Some (model_id a);
                                 link_target := model_id b;
                                 link_value := random (k + 2) |}]) (k + 3)%nat)
        as (links' & k' & Hfold & Hall & Hle).
      * done.
      * apply Forall_app. split; [done|]. apply Forall_singleton.
        exists s, t. rewrite Hlen, Hida, Hidb. simpl.
        repeat split; try done; apply Hunit.
      * exists links', k'. split; [done|]. split; [done|].
        rewrite length_app in Hle. simpl in *. lia.
    + destruct (IH links (k + 2)%nat) as (links' & k' & Hfold & Hall & Hle);
        [done..|].
      exists links', k'. split; [done|]. split; [done|]. simpl. lia.
Qed.

End SubsetFacts.

(** X16: [loadObjaverseSubset] falls back on generated data only when
    fetching the index throws; when the response is not ok it resolves
    with [undefined].  From an index it takes the first [maxItems]
    entries, numbers them objaverse-real-0, objaverse-real-1, ..., and
    adds at most 1000 links and at most one per thousand nodes (rounded
    up), each between two different nodes of the subset and with a
    strength in [0,1): reading [nodes[source].id] never throws. *)
Theorem objaverse_subset_links_proper
        (fetched : Fetched (list StressTestData.IndexEntry))
        (random : Random) (maxItems : nat) :
  in_unit random ->
  match StressTestData.loadObjaverseSubset fetched random maxItems with
  | StressTestData.RealModels nodes links =>
      (exists fullIndex,
         fetched = Body fullIndex /\
         length nodes = Nat.min maxItems (length fullIndex)) /\
      map StressTestData.model_id nodes
      = map (fun i => "objaverse-real-" +:+ pretty i) (seq 0 (length nodes)) /\
      NoDup (map StressTestData.model_id nodes) /\
      Forall (proper_link (length nodes)) links /\
      (length links <= 1000 /\ 1000 * length links < length nodes + 1000)%nat
  | StressTestData.Generated dataset =>
      fetched = Failed /\
      dataset = StressTestData.generateMassiveDataset random maxItems
  | StressTestData.Undefined => fetched = NotOk
  end.
Proof.
  intros Hunit. destruct fetched as [fullIndex| |]; [|done..].
  unfold StressTestData.loadObjaverseSubset.
  set (subset := take maxItems fullIndex).
  set (nodes := imap _ subset).
  assert (length nodes = length subset) as Hlen by apply length_imap.
  destruct (link_rounds_proper random Hunit subset
              (seq 0 (StressTestData.link_rounds (length nodes))) []
              (length nodes)) as (links & k & Hfold & Hall & Hle).
  { intros Hne. destruct (length subset) eqn:Hs; [|lia].
    rewrite Hlen in Hne. by destruct Hne. }
  { by apply Forall_nil. }
  fold nodes in Hfold, Hall. rewrite Hfold.
  assert (map StressTestData.model_id nodes
          = map (fun i => "objaverse-real-" +:+ pretty i) (seq 0 (length nodes)))
    as Hids by (rewrite Hlen; apply real_nodes_ids).
  split.
  { exists fullIndex. split; [done|]. rewrite Hlen. apply length_take. }
  split; [done|]. split.
  { rewrite Hids. apply NoDup_prefixed. }
  split; [done|].
  rewrite length_seq in Hle. simpl in Hle.
  pose proof (link_rounds_bound (length nodes)). lia.
Qed.

Lemma objaverse_subset_links_proper_witness :
  let index :=
    [{| StressTestData.entry_i := Some "https://example.org/a/chair.glb";
        StressTestData.entry_n := Some "chair.glb";
        StressTestData.entry_s := None |};
     {| StressTestData.entry_i := Some "https://example.org/b/scene.gltf";
        StressTestData.entry_n := None;
        StressTestData.entry_s := Some "Sketchfab" |}] in
  match StressTestData.loadObjaverseSubset (Body index) alternating 10 with
  | StressTestData.RealModels nodes links =>
      (exists fullIndex,
         Body index = Body fullIndex /\
         length nodes = Nat.min 10 (length fullIndex)) /\
      map StressTestData.model_id nodes
      = map (fun i => "objaverse-real-" +:+ pretty i) (seq 0 (length nodes)) /\
      NoDup (map StressTestData.model_id nodes) /\
      Forall (proper_link (length nodes)) links /\
      (length links <= 1000 /\ 1000 * length links < length nodes + 1000)%nat
  | StressTestData.Generated dataset =>
      Body index = Failed /\
      dataset = StressTestData.generateMassiveDataset alternating 10
  | StressTestData.Undefined => Body index = NotOk
  end.
Proof.
  intros index.
  apply (objaverse_subset_links_proper (Body index) alternating 10
           alternating_in_unit).
Defined.
